(** * CDELFI: the round-based inference driver of delfi

    A shallow embedding of [delfi/inference/CDELFI.py]: the constructor,
    [loss], [run] (with the final-round network surgery) and [predict].

    Python objects are records, dictionaries are finite maps keyed by
    strings, and a method is a function from the state of [self] to an
    outcome (a value or a raised exception) together with the state it
    leaves behind.  The collaborators the module imports (the generator,
    the neural network, the trainer, the distribution objects) are the
    fields of one record of operations, each of which may raise. *)

From Stdlib Require Import ZArith QArith Qfield Lia Ascii String.
From stdpp Require Import gmap strings list fin_maps pretty.

Set Default Proof Using "Type".
Open Scope Z_scope.

(** ** Python strings *)

Module PyStr.

(** [sub in s] on strings: [sub] occurs in [s] as a contiguous block. *)
Fixpoint contains (sub s : string) : bool :=
  String.prefix sub s ||
  match s with
  | EmptyString => false
  | String _ s' => contains sub s'
  end.

(** [s[:-1]]: everything but the last character; the empty string stays
    empty. *)
Fixpoint but_last (s : string) : string :=
  match s with
  | EmptyString => EmptyString
  | String c s' =>
      match s' with
      | EmptyString => EmptyString
      | String _ _ => String c (but_last s')
      end
  end.

(** The last character, when there is one. *)
Fixpoint last_char (s : string) : option ascii :=
  match s with
  | EmptyString => None
  | String c s' =>
      match s' with
      | EmptyString => Some c
      | String _ _ => last_char s'
      end
  end.

Definition is_digit (c : ascii) : bool :=
  (48 <=? nat_of_ascii c)%nat && (nat_of_ascii c <=? 57)%nat.

Definition ends_in_digit (s : string) : bool :=
  match last_char s with Some c => is_digit c | None => false end.

End PyStr.

(** ** Exceptions and outcomes *)

(** The exceptions the module itself can raise, and [External] for whatever
    a collaborator raises. *)
Inductive exn : Type :=
  | KeyError (key : string)
  | UnboundLocalError (name : string)
  | ZeroDivisionError
  | TypeError (msg : string)
  | External (what : string).

Inductive outcome (A : Type) : Type :=
  | Ok (a : A)
  | Raise (e : exn).
Arguments Ok {A} a.
Arguments Raise {A} e.

Definition succeeds {A} (o : outcome A) : Prop := ∃ a, o = Ok a.

(** A method of an object with state [S]: it returns or raises, and in both
    cases leaves a state (Python does not roll back on an exception). *)
Definition M (S A : Type) : Type := S → outcome A * S.

Definition ret {S A} (a : A) : M S A := λ s, (Ok a, s).
Definition raise {S A} (e : exn) : M S A := λ s, (Raise e, s).
Definition bind {S A B} (m : M S A) (k : A → M S B) : M S B :=
  λ s, match m s with
       | (Ok a, s') => k a s'
       | (Raise e, s') => (Raise e, s')
       end.
Definition get {S} : M S S := λ s, (Ok s, s).
Definition modify {S} (f : S → S) : M S unit := λ s, (Ok tt, f s).
(** A call to a collaborator that does not touch [self]. *)
Definition call {S A} (o : outcome A) : M S A := λ s, (o, s).

Notation "'let!' x ':=' m 'in' k" := (bind m (λ x, k))
  (at level 10, x name, m at level 100, k at level 200,
   format "'[v' 'let!'  x  ':='  m  'in' '/' k ']'").
Notation "'do!' m 'in' k" := (bind m (λ _, k))
  (at level 10, m at level 100, k at level 200,
   format "'[v' 'do!'  m  'in' '/' k ']'").

(** The [for] loop of [run], with its two accumulators: each pass through
    the body appends one entry to [logs] and one to [trn_datasets]. *)
Fixpoint rounds {S A B} (body : Z → M S (A * B)) (rs : list Z)
    (logs : list A) (trn_datasets : list B) : M S (list A * list B) :=
  match rs with
  | [] => ret (logs, trn_datasets)
  | r :: rs' =>
      let! ld := body r in
      rounds body rs' (logs ++ [ld.1]) (trn_datasets ++ [ld.2])
  end.

(** ** Parameter dictionaries and the surgery loop *)

Section Surgery.
Context {V : Type}.

(** The filter of the list comprehension:
    ['means' in s or 'precisions' in s]. *)
Definition is_mp (s : string) : bool :=
  PyStr.contains "means" s || PyStr.contains "precisions" s.

(** [p[:-1] + '0'] *)
Definition zero_key (p : string) : string := PyStr.but_last p +:+ "0".

(** [[s for s in new_params if 'means' in s or 'precisions' in s]] *)
Definition mp_names (new_params : gmap string V) : list string :=
  filter (λ s, is_mp s = true) (map_to_list new_params).*1.

(** The body of the [for p in ...] loop:
    [new_params[p] = old_params[p[:-1] + '0']]; a missing key raises. *)
Fixpoint set_weights (old_params : gmap string V) (ps : list string)
    (new_params : gmap string V) : outcome (gmap string V) :=
  match ps with
  | [] => Ok new_params
  | p :: ps' =>
      match old_params !! zero_key p with
      | Some v => set_weights old_params ps' (<[p := v]> new_params)
      | None => Raise (KeyError (zero_key p))
      end
  end.

Definition duplicate_components (old_params new_params : gmap string V)
    : outcome (gmap string V) :=
  set_weights old_params (mp_names new_params) new_params.

End Surgery.

(** ** Python values, symbolic expressions *)

(** The values that occur in keyword arguments and in [spec_dict]. *)
Inductive pyval : Type :=
  | PNone
  | PBool (b : bool)
  | PInt (n : Z)
  | PInts (l : list Z)
  | PStr (s : string).

(** [range(a, b)] *)
Definition py_range (a b : Z) : list Z :=
  map (λ i : nat, a + Z.of_nat i) (seq 0 (Z.to_nat (b - a))).

(** Theano expressions, as far as [loss] builds them.  A [vexpr] is a
    symbolic tensor with one entry per training example; an [expr] is a
    scalar node. *)
Inductive vexpr : Type :=
  | VVar (name : string).

Inductive expr : Type :=
  | Const (q : Q)
  | Mean (v : vexpr)
  | Neg (e : expr)
  | Add (e1 e2 : expr)
  | Mul (e1 e2 : expr)
  | SviKlZero (mps sps : list string) (lam : Q).

(** The value of an expression, given the value [ρ] of every symbolic
    tensor and the value [κ] of the regulariser node. *)
Definition Qsum (l : list Q) : Q := foldr Qplus 0%Q l.
Definition Qmean (l : list Q) : Q :=
  (Qsum l / inject_Z (Z.of_nat (length l)))%Q.

Definition vval (ρ : string → list Q) (v : vexpr) : list Q :=
  match v with VVar x => ρ x end.

Fixpoint eval (ρ : string → list Q) (κ : list string → list string → Q → Q)
    (e : expr) : Q :=
  match e with
  | Const q => q
  | Mean v => Qmean (vval ρ v)
  | Neg e => (- eval ρ κ e)%Q
  | Add e1 e2 => (eval ρ κ e1 + eval ρ κ e2)%Q
  | Mul e1 e2 => (eval ρ κ e1 * eval ρ κ e2)%Q
  | SviKlZero m s lam => κ m s lam
  end.

(** ** The objects *)

(** The types the collaborators own. *)
Record Types : Type := {
  tensor : Type;   (* numeric arrays: the values of network parameters *)
  dist : Type;     (* distribution objects *)
  stats : Type;    (* summary statistics, the observation *)
  data : Type;     (* a training dataset: (params, stats) *)
  log : Type;      (* what [Trainer.train] returns *)
  sim : Type;      (* the internals of the generator *)
  rng : Type;      (* a [numpy.random.RandomState] *)
  monitor : Type;  (* the dictionary of monitored nodes *)
  trainer : Type;  (* a [Trainer] instance *)
}.

Section Objects.
Context {T : Types}.

Record Generator : Type := {
  prior : dist T;
  proposal : option (dist T);
  sim_state : sim T;
}.

Record NeuralNet : Type := {
  spec_dict : gmap string pyval;
  params_dict : gmap string (tensor T);
  lprobs : vexpr;
  mps : list string;
  sps : list string;
}.

(** The attributes [InferenceBase.__init__] sets and this module reads. *)
Record InferenceBase : Type := {
  generator : Generator;
  network : NeuralNet;
  svi : bool;
  observables : gmap string expr;
  seed : option Z;
  rng_state : rng T;
}.

Record CDELFI : Type := {
  base : InferenceBase;
  n_components : Z;
  obs : stats T;
  reg_lambda : Q;
}.

Definition set_base (f : InferenceBase → InferenceBase) (self : CDELFI)
    : CDELFI :=
  {| base := f (base self); n_components := n_components self;
     obs := obs self; reg_lambda := reg_lambda self |}.

Definition with_network (nw : NeuralNet) (b : InferenceBase)
    : InferenceBase :=
  {| generator := generator b; network := nw; svi := svi b;
     observables := observables b; seed := seed b;
     rng_state := rng_state b |}.

Definition with_generator (g : Generator) (b : InferenceBase)
    : InferenceBase :=
  {| generator := g; network := network b; svi := svi b;
     observables := observables b; seed := seed b;
     rng_state := rng_state b |}.

Definition with_observables (o : gmap string expr) (b : InferenceBase)
    : InferenceBase :=
  {| generator := generator b; network := network b; svi := svi b;
     observables := o; seed := seed b; rng_state := rng_state b |}.

Definition with_rng (r : rng T) (b : InferenceBase) : InferenceBase :=
  {| generator := generator b; network := network b; svi := svi b;
     observables := observables b; seed := seed b; rng_state := r |}.

Definition with_params (ps : gmap string (tensor T)) (nw : NeuralNet)
    : NeuralNet :=
  {| spec_dict := spec_dict nw; params_dict := ps; lprobs := lprobs nw;
     mps := mps nw; sps := sps nw |}.

Definition with_proposal (p : option (dist T)) (g : Generator)
    : Generator :=
  {| prior := prior g; proposal := p; sim_state := sim_state g |}.

Definition with_sim (s : sim T) (g : Generator) : Generator :=
  {| prior := prior g; proposal := proposal g; sim_state := s |}.

(** The collaborators: everything [CDELFI.py] imports or inherits. *)
Record Collab : Type := {
  (* [str(type(d))] *)
  type_str : dist T → string;
  (* [d1 * d2], [d1 / d2], [d.project_to_gaussian()] *)
  dist_mul : dist T → dist T → outcome (dist T);
  dist_truediv : dist T → dist T → outcome (dist T);
  project_to_gaussian : dist T → outcome (dist T);
  (* [NeuralNet] called with the entries of a spec as keywords *)
  mk_NeuralNet : gmap string pyval → outcome NeuralNet;
  (* [InferenceBase.__init__] with the generator, the seed and the
     keyword arguments *)
  base_init : Generator → option Z → gmap string pyval
              → outcome InferenceBase;
  (* [InferenceBase.gen(n)]: the dataset and the generator's new
     internals *)
  base_gen : Generator → Z → outcome (data T * sim T);
  (* [InferenceBase.predict(x)] *)
  base_predict : NeuralNet → stats T → outcome (dist T);
  (* [InferenceBase.monitor_dict_from_names(names)] *)
  monitor_dict_from_names : gmap string expr → option (list string)
                            → outcome (monitor T);
  (* [Trainer] with network, loss, trn_data, monitor, seed and the
     keyword arguments *)
  mk_Trainer : NeuralNet → expr → data T → monitor T → option Z
               → gmap string pyval → outcome (trainer T);
  (* [t.train(epochs=, minibatch=)]: the log and the trained network *)
  train : trainer T → NeuralNet → Z → Z → outcome (log T * NeuralNet);
  (* [rng.randint(lo, hi)] *)
  randint : rng T → Z → Z → Z * rng T;
}.

End Objects.
Arguments Generator : clear implicits.
Arguments NeuralNet : clear implicits.
Arguments InferenceBase : clear implicits.
Arguments CDELFI : clear implicits.
Arguments Collab : clear implicits.

(** ** The methods of [CDELFI] *)

Section Methods.
Context {T : Types} (E : Collab T).

Abbreviation self_t := (CDELFI T).

(** [__init__]: the keyword arguments are updated with
    [{'n_components': 1}] before the base class sees them. *)
Definition init (gen : Generator T) (obs0 : stats T) (n_comps : Z)
    (reg : Q) (seed0 : option Z) (kwargs : gmap string pyval)
    : outcome self_t :=
  let kwargs := <["n_components" := PInt 1]> kwargs in
  match base_init E gen seed0 kwargs with
  | Ok b => Ok {| base := b; n_components := n_comps; obs := obs0;
                  reg_lambda := reg |}
  | Raise e => Raise e
  end.

(** [1 / N] on a Python int. *)
Definition py_inv (N : Z) : outcome Q :=
  if N =? 0 then Raise ZeroDivisionError else Ok (1 / inject_Z N)%Q.

(** [loss(N)].  The local [kl] is bound only inside [if self.svi]; it is
    read after the branch, whichever way the branch went. *)
Definition loss (N : Z) : M self_t expr :=
  let! self := get in
  let loss0 := Neg (Mean (lprobs (network (base self)))) in
  let! r :=
    (if svi (base self) then
       let kl := SviKlZero (mps (network (base self)))
                   (sps (network (base self))) (reg_lambda self) in
       let! c := call (py_inv N) in
       ret (Add loss0 (Mul (Const c) kl), Some kl)
     else ret (loss0, None)) in
  match r.2 with
  | Some kl =>
      do! modify (set_base (λ b,
            with_observables (<["loss.kl" := kl]> (observables b)) b)) in
      ret r.1
  | None => raise (UnboundLocalError "kl")
  end.

(** [predict(x)] *)
Definition predict (x : stats T) : M self_t (dist T) :=
  let! self := get in
  match proposal (generator (base self)) with
  | None => call (base_predict E (network (base self)) x)
  | Some prop =>
      let! mog := call (base_predict E (network (base self)) x) in
      let ty := type_str E (prior (generator (base self))) in
      if PyStr.contains "Uniform" ty then
        call (dist_truediv E mog prop)
      else if PyStr.contains "Gaussian" ty then
        let! m := call (dist_mul E mog (prior (generator (base self)))) in
        call (dist_truediv E m prop)
      else
        (* [raise NotImplemented]: the operand is not an exception *)
        raise (TypeError "exceptions must derive from BaseException")
  end.

(** [self.gen(n_train)] *)
Definition gen (n : Z) : M self_t (data T) :=
  let! self := get in
  let! r := call (base_gen E (generator (base self)) n) in
  do! modify (set_base (λ b,
        with_generator (with_sim r.2 (generator b)) b)) in
  ret r.1.

(** Modelled from the spec: [InferenceBase.gen_newseed], which is not
    among the sources; the spec gives it the contract of
    [SummaryStatsBase.gen_newseed]: [None] if unseeded, else
    [rng.randint(0, 2**31)]. *)
Definition gen_newseed : M self_t (option Z) :=
  let! self := get in
  match seed (base self) with
  | None => ret None
  | Some _ =>
      let r := randint E (rng_state (base self)) 0 (2 ^ 31) in
      do! modify (set_base (with_rng r.2)) in
      ret (Some r.1)
  end.

(** [network_spec]: a copy of the network's [spec_dict], updated with
    [{'n_components': self.n_components}]. *)
Definition expanded_spec (self : self_t) : gmap string pyval :=
  <["n_components" := PInt (n_components self)]>
    (spec_dict (network (base self))).

(** The body of [if r == n_rounds and self.n_components > 1]. *)
Definition expand : M self_t unit :=
  let! self := get in
  let old_params := params_dict (network (base self)) in
  let network_spec := expanded_spec self in
  let! nw := call (mk_NeuralNet E network_spec) in
  do! modify (set_base (with_network nw)) in
  let! new_params :=
    call (duplicate_components old_params (params_dict nw)) in
  modify (set_base (with_network (with_params new_params nw))).

(** One pass through the body of the [for] loop; it returns what the
    pass appends to [logs] and to [trn_datasets]. *)
Definition round (n_train n_rounds epochs minibatch : Z)
    (mon : option (list string)) (kwargs : gmap string pyval) (r : Z)
    : M self_t (log T * data T) :=
  let! trn_data := gen n_train in
  let! self := get in
  do! (if (r =? n_rounds) && (1 <? n_components self)
       then expand else ret tt) in
  let! self := get in
  let nw := network (base self) in
  let! l := loss n_train in
  let! self := get in
  let! m := call (monitor_dict_from_names E (observables (base self))
                    mon) in
  let! sd := gen_newseed in
  let! t := call (mk_Trainer E nw l trn_data m sd kwargs) in
  let! res := call (train E t nw epochs minibatch) in
  do! modify (set_base (with_network res.2)) in
  let! self := get in
  let! posterior := predict (obs self) in
  let! g := call (project_to_gaussian E posterior) in
  do! modify (set_base (λ b,
        with_generator (with_proposal (Some g) (generator b)) b)) in
  ret (res.1, trn_data).

(** [run(n_train, n_rounds, epochs, minibatch, monitor, **kwargs)] *)
Definition run (n_train n_rounds epochs minibatch : Z)
    (mon : option (list string)) (kwargs : gmap string pyval)
    : M self_t (list (log T) * list (data T)) :=
  rounds (round n_train n_rounds epochs minibatch mon kwargs)
    (py_range 1 (n_rounds + 1)) [] [].

End Methods.

(** [(x * a) / b] on outcomes: the second operator runs only if the first
    one returned. *)
Definition and_then {A B} (o : outcome A) (k : A → outcome B) : outcome B :=
  match o with
  | Ok a => k a
  | Raise e => Raise e
  end.


(** ** Parameter names *)

(** Modelled from the spec: the keys of [NeuralNet.params_dict].  The
    network class is not among the sources; by the spec the density
    estimator has "a parameter dictionary keyed by component-indexed names
    for means/precisions and non-indexed names for shared structure".  A
    layout lists the shared names and the stems of the indexed names; the
    key of component [c] of a stem is the stem followed by the decimal
    numeral of [c]. *)
Record layout : Type := {
  shared_names : list string;
  mp_stems : list string;
}.

Definition indexed (stem : string) (c : nat) : string := stem +:+ pretty c.

Definition param_names (L : layout) (n : nat) : list string :=
  shared_names L ++ (stem ← mp_stems L; indexed stem <$> seq 0 n).

(** There is an indexed block; the stems are caught by the filter of the
    surgery and do not themselves end in a digit; shared names are not
    caught by the filter. *)
Definition wf_layout (L : layout) : bool :=
  negb (bool_decide (mp_stems L = []))
  && forallb (λ b, is_mp b && negb (PyStr.ends_in_digit b)) (mp_stems L)
  && forallb (λ s, negb (is_mp s)) (shared_names L).

Definition has_keys {V} (m : gmap string V) (names : list string) : Prop :=
  dom m = list_to_set names.

(** The postcondition the surgery is said to have: new components repeat
    component 0 of the old network, and every name the filter does not
    catch has the old network's value. *)
Definition duplicates_component0 {V} (old new : gmap string V) : Prop :=
  ∀ stem c, (0 < c)%nat → is_mp (indexed stem c) = true →
    is_Some (new !! indexed stem c) →
    new !! indexed stem c = old !! indexed stem 0.

Definition shared_copied {V} (old new : gmap string V) : Prop :=
  ∀ p, is_mp p = false → is_Some (new !! p) → new !! p = old !! p.

(** ** Runs as sequences of rounds *)

(** [steps body rs s xs s']: the passes for the round numbers [rs], started
    in [s], all return; pass [i] runs in the state pass [i-1] left, [xs]
    lists what each pass returned, and [s'] is the last state. *)
Inductive steps {S A} (body : Z → M S A)
    : list Z → S → list A → S → Prop :=
  | steps_nil s : steps body [] s [] s
  | steps_cons r rs s x s1 xs s2 :
      body r s = (Ok x, s1) →
      steps body rs s1 xs s2 →
      steps body (r :: rs) s (x :: xs) s2.

(** Every call to a collaborator returns. *)
Record total_collab {T : Types} (E : Collab T) : Prop := {
  mul_total : ∀ a b, succeeds (dist_mul E a b);
  truediv_total : ∀ a b, succeeds (dist_truediv E a b);
  project_total : ∀ d, succeeds (project_to_gaussian E d);
  NeuralNet_total : ∀ spec, succeeds (mk_NeuralNet E spec);
  gen_total : ∀ g n, succeeds (base_gen E g n);
  predict_total : ∀ nw x, succeeds (base_predict E nw x);
  monitor_total : ∀ o names, succeeds (monitor_dict_from_names E o names);
  Trainer_total : ∀ nw l d m sd kw, succeeds (mk_Trainer E nw l d m sd kw);
  train_total : ∀ t nw ep mb, succeeds (train E t nw ep mb);
}.

(** Training changes the values of the parameters, not their names. *)
Definition train_keeps_names {T : Types} (E : Collab T) : Prop :=
  ∀ t nw ep mb l nw',
    train E t nw ep mb = Ok (l, nw') →
    dom (params_dict nw') = dom (params_dict nw).

(** Every lookup [old_params[p[:-1] + '0']] of the surgery hits, for the
    names [K] of the old network and whatever network the constructor
    returns when asked for [nc] components. *)
Definition lookups_hit {T : Types} (E : Collab T) (K : gset string)
    (nc : Z) : Prop :=
  ∀ spec nw p,
    spec !! "n_components" = Some (PInt nc) →
    mk_NeuralNet E spec = Ok nw →
    is_Some (params_dict nw !! p) → is_mp p = true →
    zero_key p ∈ K.

(** The same object with another requested component count. *)
Definition with_n_components {T : Types} (k : Z) (self : CDELFI T)
    : CDELFI T :=
  {| base := base self; n_components := k; obs := obs self;
     reg_lambda := reg_lambda self |}.

(** What the passes before the last one keep: [svi] stays on, the prior
    and the requested component count stay what they are, and when a
    surgery is due the network keeps the names [K]. *)
Definition round_inv {T : Types} (K : gset string) (pr : dist T) (nc : Z)
    (self : CDELFI T) : Prop :=
  svi (base self) = true ∧
  prior (generator (base self)) = pr ∧
  n_components self = nc ∧
  (1 < nc → dom (params_dict (network (base self))) = K).

(** [self] after [self.gen] has drawn: the generator's internals moved. *)
Definition drawn {T : Types} (sm : sim T) (self : CDELFI T) : CDELFI T :=
  set_base (λ b, with_generator (with_sim sm (generator b)) b) self.

Definition supported_prior (ty : string) : bool :=
  PyStr.contains "Uniform" ty || PyStr.contains "Gaussian" ty.

(** ** A small instance

    Distributions are terms over the three operators, every collaborator
    returns, and a network has the names of [toy_layout]. *)

Module Toy.

Inductive term : Type :=
  | Atom (ty : string)
  | TMul (a b : term)
  | TDiv (a b : term)
  | Proj (a : term).

Definition types : Types :=
  {| tensor := Z; dist := term; stats := Z; data := Z; log := Z;
     sim := Z; rng := Z; monitor := list string; trainer := Z |}.

Definition toy_layout : layout :=
  {| shared_names := ["hidden.mW"; "weights.mW"];
     mp_stems := ["means.mW"; "precisions.mW"] |}.

Definition mog_type : string :=
  "<class 'delfi.distribution.mixture.GaussianMixture.MoG'>".
Definition gaussian_type : string :=
  "<class 'delfi.distribution.Gaussian.Gaussian'>".
Definition uniform_type : string :=
  "<class 'delfi.distribution.Uniform.Uniform'>".
Definition studentst_type : string :=
  "<class 'delfi.distribution.StudentsT.StudentsT'>".

Definition count_of (spec : gmap string pyval) : nat :=
  match spec !! "n_components" with
  | Some (PInt n) => Z.to_nat n
  | _ => 1
  end.

(** A new network: every parameter starts at [init]. *)
Definition fresh_net (init : Z) (spec : gmap string pyval)
    : NeuralNet types :=
  {| spec_dict := spec;
     params_dict :=
       list_to_map ((λ p, (p, init)) <$> param_names toy_layout (count_of spec));
     lprobs := VVar "lprobs";
     mps := ["mW"];
     sps := ["sW"] |}.

Definition collab : Collab types :=
  {| type_str := λ d : dist types,
       match d with Atom ty => ty | _ => mog_type end;
     dist_mul := λ a b, Ok (TMul a b);
     dist_truediv := λ a b, Ok (TDiv a b);
     project_to_gaussian := λ d, Ok (Proj d);
     mk_NeuralNet := λ spec, Ok (fresh_net 0 spec);
     base_init := λ g sd kw,
       Ok {| generator := g;
             network := fresh_net 0 kw;
             svi := match kw !! "svi" with
                    | Some (PBool b) => b
                    | _ => false
                    end;
             observables := ∅;
             seed := sd;
             rng_state := default 0 sd |};
     base_gen := λ g n, Ok (sim_state g, sim_state g + 1);
     base_predict := λ nw x, Ok (Atom mog_type);
     monitor_dict_from_names := λ o names, Ok (default [] names);
     mk_Trainer := λ nw l d m sd kw, Ok (d : trainer types);
     train := λ t nw ep mb,
       Ok (ep + t, with_params (Z.succ <$> params_dict nw) nw);
     randint := λ r lo hi, ((r + 1) `mod` hi, r + 1) |}.

Definition generator_of (prior_ty : string) (prop : option term)
    : Generator types :=
  {| prior := (Atom prior_ty : dist types); proposal := prop;
     sim_state := (0 : sim types) |}.

(** A one-component network after some training: every parameter is 1. *)
Definition trained_net : NeuralNet types :=
  fresh_net 1 {[ "n_components" := PInt 1 ]}.

(** The object [CDELFI(g, obs=0, n_components=n, seed=42, svi=b)] with a
    trained one-component network. *)
Definition self_of (prior_ty : string) (prop : option term) (n : Z)
    (b : bool) : CDELFI types :=
  {| base := {| generator := generator_of prior_ty prop;
                network := trained_net;
                svi := b;
                observables := ∅;
                seed := Some 42;
                rng_state := (42 : rng types) |};
     n_components := n;
     obs := (0 : stats types);
     reg_lambda := 100%Q |}.

End Toy.

(** ** Comparing objects and collaborators *)

(** The attributes that are set once, by the constructor. *)
Definition same_config {T : Types} (s s' : CDELFI T) : Prop :=
  prior (generator (base s')) = prior (generator (base s)) ∧
  n_components s' = n_components s ∧
  obs s' = obs s ∧
  reg_lambda s' = reg_lambda s ∧
  svi (base s') = svi (base s) ∧
  seed (base s') = seed (base s).

(** The same collaborators, with another constructor of networks. *)
Definition with_constructor {T : Types}
    (f : gmap string pyval → outcome (NeuralNet T)) (E : Collab T)
    : Collab T :=
  {| type_str := type_str E;
     dist_mul := dist_mul E;
     dist_truediv := dist_truediv E;
     project_to_gaussian := project_to_gaussian E;
     mk_NeuralNet := f;
     base_init := base_init E;
     base_gen := base_gen E;
     base_predict := base_predict E;
     monitor_dict_from_names := monitor_dict_from_names E;
     mk_Trainer := mk_Trainer E;
     train := train E;
     randint := randint E |}.

(** The same collaborators, with another [predict] in the base class. *)
Definition with_base_predict {T : Types}
    (f : NeuralNet T → stats T → outcome (dist T)) (E : Collab T)
    : Collab T :=
  {| type_str := type_str E;
     dist_mul := dist_mul E;
     dist_truediv := dist_truediv E;
     project_to_gaussian := project_to_gaussian E;
     mk_NeuralNet := mk_NeuralNet E;
     base_init := base_init E;
     base_gen := base_gen E;
     base_predict := f;
     monitor_dict_from_names := monitor_dict_from_names E;
     mk_Trainer := mk_Trainer E;
     train := train E;
     randint := randint E |}.

(** The same collaborators, with another [gen] in the base class. *)
Definition with_base_gen {T : Types}
    (f : Generator T → Z → outcome (data T * sim T)) (E : Collab T)
    : Collab T :=
  {| type_str := type_str E;
     dist_mul := dist_mul E;
     dist_truediv := dist_truediv E;
     project_to_gaussian := project_to_gaussian E;
     mk_NeuralNet := mk_NeuralNet E;
     base_init := base_init E;
     base_gen := f;
     base_predict := base_predict E;
     monitor_dict_from_names := monitor_dict_from_names E;
     mk_Trainer := mk_Trainer E;
     train := train E;
     randint := randint E |}.

(** ** Telling a collaborator's failure from the module's own

    [blaming E] is [E] with every exception a collaborator raises replaced
    by the one exception [blame], which the module itself never raises.
    As long as the calls return, a method runs under [blaming E] exactly
    as under [E]; it ends in [blame] exactly when a call it made
    raised. *)
Definition blame : exn := External "collaborator".

Definition blamed {A} (o : outcome A) : outcome A :=
  match o with
  | Ok a => Ok a
  | Raise _ => Raise blame
  end.

Definition blaming {T : Types} (E : Collab T) : Collab T :=
  {| type_str := type_str E;
     dist_mul := λ a b, blamed (dist_mul E a b);
     dist_truediv := λ a b, blamed (dist_truediv E a b);
     project_to_gaussian := λ d, blamed (project_to_gaussian E d);
     mk_NeuralNet := λ spec, blamed (mk_NeuralNet E spec);
     base_init := λ g sd kw, blamed (base_init E g sd kw);
     base_gen := λ g n, blamed (base_gen E g n);
     base_predict := λ nw x, blamed (base_predict E nw x);
     monitor_dict_from_names := λ o names,
       blamed (monitor_dict_from_names E o names);
     mk_Trainer := λ nw l d m sd kw, blamed (mk_Trainer E nw l d m sd kw);
     train := λ t nw ep mb, blamed (train E t nw ep mb);
     randint := randint E |}.

(** Every collaborator call that [run] makes on [self] returns. *)
Definition calls_return {T : Types} (E : Collab T)
    (n_train n_rounds epochs minibatch : Z) (mon : option (list string))
    (kwargs : gmap string pyval) (self : CDELFI T) : Prop :=
  ∀ s', run (blaming E) n_train n_rounds epochs minibatch mon kwargs self
        ≠ (Raise blame, s').

(** Every lookup [old_params[p[:-1] + '0']] that the surgery of the last
    round makes hits: in the state [s] the earlier rounds left, with the
    network [nw] the constructor returned after the last draw. *)
Definition lookups_return {T : Types} (E : Collab T)
    (n_train n_rounds epochs minibatch : Z) (mon : option (list string))
    (kwargs : gmap string pyval) (self : CDELFI T) : Prop :=
  ∀ xs s d sm nw p,
    steps (round E n_train n_rounds epochs minibatch mon kwargs)
      (py_range 1 n_rounds) self xs s →
    base_gen E (generator (base s)) n_train = Ok (d, sm) →
    mk_NeuralNet E (expanded_spec (drawn sm s)) = Ok nw →
    is_Some (params_dict nw !! p) → is_mp p = true →
    is_Some (params_dict (network (base s)) !! zero_key p).

(** ** [SummaryStatsBase] *)

Module SummaryStats.

Section Base.
Context {R : Type}.

(** What the class takes from numpy: [np.random.RandomState(seed=seed)],
    which may reject the seed, and [rng.randint(lo, hi)]. *)
Record NumpyRandom : Type := {
  RandomState : option Z → outcome R;
  np_randint : R → Z → Z → Z * R;
}.

Record SummaryStatsBase : Type := {
  rng : R;
  seed : option Z;
  n_summary : option Z;
}.

Context (np : NumpyRandom).

(** [__init__(seed=None)] *)
Definition init (seed0 : option Z) : outcome SummaryStatsBase :=
  match RandomState np seed0 with
  | Ok r => Ok {| rng := r; seed := seed0; n_summary := None |}
  | Raise e => Raise e
  end.

(** [gen_newseed()] *)
Definition gen_newseed : M SummaryStatsBase (option Z) :=
  let! self := get in
  match seed self with
  | None => ret None
  | Some _ =>
      let r := np_randint np (rng self) 0 (2 ^ 31) in
      do! modify (λ s, {| rng := r.2; seed := seed s;
                          n_summary := n_summary s |}) in
      ret (Some r.1)
  end.

(** A caller that asks for [k] seeds in a row and collects them. *)
Fixpoint gen_newseeds (k : nat) : M SummaryStatsBase (list (option Z)) :=
  match k with
  | O => ret []
  | Datatypes.S k' =>
      let! x := gen_newseed in
      let! xs := gen_newseeds k' in
      ret (x :: xs)
  end.

(** [randint(lo, hi)] keeps its contract: the draw is in [[lo, hi)]. *)
Definition randint_in_range : Prop :=
  ∀ r lo hi, lo < hi → lo ≤ (np_randint np r lo hi).1 < hi.

End Base.
Arguments NumpyRandom : clear implicits.
Arguments SummaryStatsBase : clear implicits.

(** A linear congruential generator standing in for numpy's. *)
Definition lcg : NumpyRandom Z :=
  {| RandomState := λ sd,
       match sd with
       | Some n => if (0 <=? n) && (n <? 2 ^ 32) then Ok n
                   else Raise (External "ValueError")
       | None => Ok 0
       end;
     np_randint := λ r lo hi,
       (lo + (1103515245 * r + 12345) `mod` (hi - lo),
        (1103515245 * r + 12345) `mod` 2 ^ 32) |}.

End SummaryStats.

(** ** Tactics for the state and exception monad *)

Ltac run_m_in H :=
  unfold bind, get, modify, ret, raise, call in H; cbn [fst snd] in H.

Ltac case_innermost_in H :=
  match type of H with
  | context [match ?x with _ => _ end] =>
      lazymatch x with
      | context [match _ with _ => _ end] => fail
      | _ => destruct x eqn:?
      end
  end.

Ltac case_innermost :=
  match goal with
  | |- context [match ?x with _ => _ end] =>
      lazymatch x with
      | context [match _ with _ => _ end] => fail
      | _ => destruct x eqn:?
      end
  end.

Ltac proj_simpl :=
  cbn [andb base set_base with_n_components obs reg_lambda n_components
       fst snd generator network svi observables seed rng_state
       with_network with_generator with_observables with_rng proposal
       prior with_proposal with_sim sim_state with_params params_dict
       spec_dict].

Ltac proj_simpl_in H :=
  cbn [andb base set_base with_n_components obs reg_lambda n_components
       fst snd generator network svi observables seed rng_state
       with_network with_generator with_observables with_rng proposal
       prior with_proposal with_sim sim_state with_params params_dict
       spec_dict] in H.
Ltac run_m :=
  unfold bind, get, modify, ret, raise, call; cbn [fst snd].

(** ** [predict] *)

Section PredictFacts.
Context {T : Types} (E : Collab T).
Implicit Types (self : CDELFI T) (x : stats T).

(** [predict] assigns to nothing: whatever it returns or raises, [self]
    (and with it the generator's prior and proposal) is as before. *)
Lemma predict_state x self : (predict E x self).2 = self.
Proof.
  unfold predict. run_m.
  destruct (proposal _); [|by destruct (base_predict _ _ _)].
  destruct (base_predict _ _ _); [|done].
  destruct (PyStr.contains "Uniform" _); [by destruct (dist_truediv _ _ _)|].
  destruct (PyStr.contains "Gaussian" _); [|done].
  destruct (dist_mul _ _ _); [|done]. by destruct (dist_truediv _ _ _).
Qed.

Lemma predict_other_prior x self prop mog :
  proposal (generator (base self)) = Some prop →
  base_predict E (network (base self)) x = Ok mog →
  PyStr.contains "Uniform"
    (type_str E (prior (generator (base self)))) = false →
  PyStr.contains "Gaussian"
    (type_str E (prior (generator (base self)))) = false →
  predict E x self
  = (Raise (TypeError "exceptions must derive from BaseException"), self).
Proof.
  intros Hp Hm Hu Hg. unfold predict. run_m. by rewrite Hp, Hm, Hu, Hg.
Qed.

(** C6: with the generator's proposal unset, [predict] returns what the
    network's own [predict] returns at [x], untouched, whatever the prior
    is; nothing is assigned. *)
Theorem predict_proposal_unset x self :
  proposal (generator (base self)) = None →
  predict E x self = (base_predict E (network (base self)) x, self).
Proof.
  intros Hp. unfold predict. run_m. rewrite Hp.
  by destruct (base_predict _ _ _).
Qed.

(** C5: with a proposal set and a prior whose type name contains
    [Uniform], [predict] returns [mog / proposal] for the mixture [mog] the
    network gives at [x]; the prior is not multiplied in. *)
Theorem predict_uniform_prior x self prop mog :
  proposal (generator (base self)) = Some prop →
  base_predict E (network (base self)) x = Ok mog →
  PyStr.contains "Uniform"
    (type_str E (prior (generator (base self)))) = true →
  predict E x self = (dist_truediv E mog prop, self).
Proof.
  intros Hp Hm Hu. unfold predict. run_m. rewrite Hp, Hm, Hu.
  by destruct (dist_truediv _ _ _).
Qed.

(** C4: with a proposal set and a Gaussian prior (its type name contains
    [Gaussian] and not [Uniform], which is tested first), [predict]
    returns [(mog * prior) / proposal]. *)
Theorem predict_gaussian_prior x self prop mog :
  proposal (generator (base self)) = Some prop →
  base_predict E (network (base self)) x = Ok mog →
  PyStr.contains "Uniform"
    (type_str E (prior (generator (base self)))) = false →
  PyStr.contains "Gaussian"
    (type_str E (prior (generator (base self)))) = true →
  predict E x self
  = (and_then (dist_mul E mog (prior (generator (base self))))
       (λ m, dist_truediv E m prop), self).
Proof.
  intros Hp Hm Hu Hg. unfold predict. run_m. rewrite Hp, Hm, Hu, Hg.
  destruct (dist_mul _ _ _) as [m|e]; simpl; [|done].
  by destruct (dist_truediv _ _ _).
Qed.

End PredictFacts.

Lemma predict_proposal_unset_witness :
  predict Toy.collab 0 (Toy.self_of Toy.studentst_type None 1 true)
  = (Ok (Toy.Atom Toy.mog_type),
     Toy.self_of Toy.studentst_type None 1 true).
Proof.
  exact (predict_proposal_unset Toy.collab 0
           (Toy.self_of Toy.studentst_type None 1 true) eq_refl).
Defined.

Lemma predict_uniform_prior_witness :
  predict Toy.collab 0
    (Toy.self_of Toy.uniform_type (Some (Toy.Atom Toy.gaussian_type)) 1 true)
  = (Ok (Toy.TDiv (Toy.Atom Toy.mog_type) (Toy.Atom Toy.gaussian_type)),
     Toy.self_of Toy.uniform_type (Some (Toy.Atom Toy.gaussian_type)) 1 true).
Proof.
  exact (predict_uniform_prior Toy.collab 0
           (Toy.self_of Toy.uniform_type
              (Some (Toy.Atom Toy.gaussian_type)) 1 true)
           (Toy.Atom Toy.gaussian_type) (Toy.Atom Toy.mog_type)
           eq_refl eq_refl eq_refl).
Defined.

Lemma predict_gaussian_prior_witness :
  predict Toy.collab 0
    (Toy.self_of Toy.gaussian_type (Some (Toy.Atom Toy.gaussian_type)) 1 true)
  = (Ok (Toy.TDiv (Toy.TMul (Toy.Atom Toy.mog_type)
                     (Toy.Atom Toy.gaussian_type))
           (Toy.Atom Toy.gaussian_type)),
     Toy.self_of Toy.gaussian_type (Some (Toy.Atom Toy.gaussian_type)) 1 true).
Proof.
  exact (predict_gaussian_prior Toy.collab 0
           (Toy.self_of Toy.gaussian_type
              (Some (Toy.Atom Toy.gaussian_type)) 1 true)
           (Toy.Atom Toy.gaussian_type) (Toy.Atom Toy.mog_type)
           eq_refl eq_refl eq_refl eq_refl).
Defined.

(** C3: a Student-t prior with a proposal set.  The last branch of
    [predict] executes [raise NotImplemented]; the operand is the constant
    [NotImplemented], not an exception, so what is raised is a [TypeError].
    Nothing is assigned. *)
Theorem predict_studentst_prior :
  predict Toy.collab 0
    (Toy.self_of Toy.studentst_type (Some (Toy.Atom Toy.gaussian_type)) 1 true)
  = (Raise (TypeError "exceptions must derive from BaseException"),
     Toy.self_of Toy.studentst_type (Some (Toy.Atom Toy.gaussian_type)) 1 true).
Proof.
  apply (predict_other_prior Toy.collab 0 _
           (Toy.Atom Toy.gaussian_type) (Toy.Atom Toy.mog_type));
    reflexivity.
Qed.

(** ** [loss] *)

Section LossFacts.
Context {T : Types} (E : Collab T).
Implicit Types (self : CDELFI T) (N : Z).

(** Without [svi] the assignment to [kl] is skipped and the read of [kl]
    that follows the branch fails, for every [N]. *)
Lemma loss_svi_off N self :
  svi (base self) = false →
  loss N self = (Raise (UnboundLocalError "kl"), self).
Proof. intros Hs. unfold loss. run_m. by rewrite Hs. Qed.

Lemma loss_svi_on_zero self :
  svi (base self) = true → loss 0 self = (Raise ZeroDivisionError, self).
Proof. intros Hs. unfold loss. run_m. by rewrite Hs. Qed.

Lemma loss_svi_on_eq N self :
  svi (base self) = true → N ≠ 0 →
  loss N self
  = (Ok (Add (Neg (Mean (lprobs (network (base self)))))
           (Mul (Const (1 / inject_Z N))
              (SviKlZero (mps (network (base self)))
                 (sps (network (base self))) (reg_lambda self)))),
     set_base (λ b, with_observables
       (<["loss.kl" := SviKlZero (mps (network (base self)))
                         (sps (network (base self))) (reg_lambda self)]>
          (observables b)) b) self).
Proof.
  intros Hs HN. unfold loss, py_inv. run_m. rewrite Hs.
  destruct (Z.eqb_spec N 0) as [->|_]; [done|]. reflexivity.
Qed.

(** C7: with [svi] on and [N] not zero, [loss(N)] returns the negative
    mean of the log-densities plus [1/N] times the KL node of the
    variational parameters against the zero-mean prior of precision
    [reg_lambda]; at a fixed value of the KL node the part of the loss
    that comes from the regulariser at [2N] is half of that at [N]. *)
Theorem loss_svi_on N self ρ κ :
  svi (base self) = true → N ≠ 0 →
  let nll := (- Qmean (vval ρ (lprobs (network (base self)))))%Q in
  let kl := κ (mps (network (base self))) (sps (network (base self)))
              (reg_lambda self) in
  ∃ e1 e2 self',
    loss N self = (Ok e1, self') ∧
    loss (2 * N) self = (Ok e2, self') ∧
    eval ρ κ e1 = (nll + (1 / inject_Z N) * kl)%Q ∧
    (eval ρ κ e2 - nll == (eval ρ κ e1 - nll) / 2)%Q.
Proof.
  intros Hs HN nll kl.
  eexists _, _, _. split; [by apply loss_svi_on_eq|].
  split; [apply loss_svi_on_eq; [done|lia]|].
  split; [reflexivity|]. cbn [eval]. fold nll kl.
  rewrite inject_Z_mult.
  assert (¬ inject_Z N == 0)%Q as HQ.
  { intros H. apply HN. apply inject_Z_injective. exact H. }
  field. done.
Qed.

End LossFacts.

Lemma loss_svi_on_witness :
  ∃ e1 e2 self',
    loss 100 (Toy.self_of Toy.gaussian_type None 1 true) = (Ok e1, self') ∧
    loss 200 (Toy.self_of Toy.gaussian_type None 1 true) = (Ok e2, self') ∧
    eval (λ _, [-3; -1]%Q) (λ _ _ _, 50%Q) e1
    = (- Qmean [-3; -1] + (1 / inject_Z 100) * 50)%Q ∧
    (eval (λ _, [-3; -1]%Q) (λ _ _ _, 50%Q) e2 - - Qmean [-3; -1]
     == (eval (λ _, [-3; -1]%Q) (λ _ _ _, 50%Q) e1 - - Qmean [-3; -1]) / 2)%Q.
Proof.
  apply (loss_svi_on 100 (Toy.self_of Toy.gaussian_type None 1 true)
           (λ _, [-3; -1]%Q) (λ _ _ _, 50%Q)); [reflexivity|lia].
Defined.

(** C2: [loss(100)] on an object without [svi].  The method does not
    return the negative mean: it raises [UnboundLocalError] at the read of
    [kl]. *)
Theorem loss_without_svi_raises :
  loss 100 (Toy.self_of Toy.gaussian_type None 1 false)
  = (Raise (UnboundLocalError "kl"),
     Toy.self_of Toy.gaussian_type None 1 false).
Proof. by apply loss_svi_off. Qed.

(** ** Strings *)

Module PyStrFacts.
Import PyStr.

Lemma app_nil_l s : "" +:+ s = s.
Proof. reflexivity. Qed.

Lemma app_cons c s t : String c s +:+ t = String c (s +:+ t).
Proof. reflexivity. Qed.

Lemma app_nil_r s : s +:+ "" = s.
Proof. induction s as [|c s IH]; [done|]. by rewrite app_cons, IH. Qed.

Lemma app_assoc s t u : (s +:+ t) +:+ u = s +:+ t +:+ u.
Proof. induction s as [|c s IH]; [done|]. by rewrite !app_cons, IH. Qed.

Lemma app_eq_nil s t : s +:+ t = "" → s = "" ∧ t = "".
Proof. destruct s; [done|]. by rewrite app_cons. Qed.

Lemma prefix_app sub s t :
  String.prefix sub s = true → String.prefix sub (s +:+ t) = true.
Proof.
  revert s. induction sub as [|a sub IH]; intros [|c s]; simpl; try done.
  - by destruct t.
  - destruct (ascii_dec a c); [apply IH|done].
Qed.

(** A block found in [s] is still found when [s] is extended. *)
Lemma contains_app sub s t :
  contains sub s = true → contains sub (s +:+ t) = true.
Proof.
  induction s as [|c s IH].
  - simpl. rewrite orb_false_r. destruct sub; [|done]. by destruct t.
  - rewrite app_cons. cbn [contains]. intros [H|H]%orb_true_iff.
    + rewrite <-app_cons, (prefix_app _ _ _ H). done.
    + by rewrite (IH H), orb_true_r.
Qed.

Lemma but_last_snoc s c : but_last (s +:+ String c "") = s.
Proof.
  induction s as [|a s IH]; [done|].
  rewrite app_cons. cbn [but_last]. rewrite IH.
  destruct s; reflexivity.
Qed.

Lemma last_char_snoc s c : last_char (s +:+ String c "") = Some c.
Proof.
  induction s as [|a s IH]; [done|].
  rewrite app_cons. cbn [last_char]. rewrite IH.
  destruct s; reflexivity.
Qed.

Lemma snoc_inj s1 s2 c1 c2 :
  s1 +:+ String c1 "" = s2 +:+ String c2 "" → s1 = s2 ∧ c1 = c2.
Proof.
  intros H. split.
  - by rewrite <-(but_last_snoc s1 c1), H, but_last_snoc.
  - assert (Some c1 = Some c2) as [= ->]; [|done].
    by rewrite <-(last_char_snoc s1 c1), H, last_char_snoc.
Qed.

Lemma is_digit_char x : is_digit (pretty_N_char x) = true.
Proof. unfold pretty_N_char. by repeat case_match. Qed.

(** The decimal numeral of [x]: the digits of [x / 10], then the digit of
    [x mod 10]. *)
Lemma pretty_N_go_app x s : pretty_N_go x s = pretty_N_go x "" +:+ s.
Proof.
  revert s. induction (N.lt_wf_0 x) as [x _ IH]; intros s.
  assert (x = 0 ∨ 0 < x)%N as [->|Hx] by lia; [done|].
  assert (x `div` 10 < x)%N as Hlt by (by apply N.div_lt).
  rewrite !(pretty_N_go_step x) by done.
  rewrite (IH _ Hlt (String _ s)), (IH _ Hlt (String _ "")).
  by rewrite app_assoc, app_cons.
Qed.

Lemma pretty_N_small (x : N) :
  (x < 10)%N → pretty x = String (pretty_N_char x) "".
Proof.
  intros Hx. unfold pretty, pretty_N. case_decide as H0; [by subst|].
  rewrite pretty_N_go_step by lia.
  rewrite N.div_small, N.mod_small by done. done.
Qed.

Lemma pretty_N_big (x : N) :
  (10 ≤ x)%N →
  pretty x = pretty (x `div` 10)%N +:+ String (pretty_N_char (x `mod` 10)) "".
Proof.
  intros Hx. unfold pretty, pretty_N.
  assert (0 < x `div` 10)%N by (apply N.div_str_pos; lia).
  rewrite !decide_False by lia.
  rewrite pretty_N_go_step by lia. apply pretty_N_go_app.
Qed.

Lemma pretty_N_snoc (x : N) :
  ∃ s, pretty x = s +:+ String (pretty_N_char (x `mod` 10)) "".
Proof.
  destruct (decide (x < 10)%N) as [Hx|Hx].
  - exists "". by rewrite pretty_N_small, N.mod_small.
  - eexists. apply pretty_N_big. lia.
Qed.

End PyStrFacts.

(** ** The surgery on dictionaries *)

Section SurgeryFacts.
Context {V : Type}.
Implicit Types (old new : gmap string V) (ps : list string) (p : string).

Lemma elem_of_mp_names new p :
  p ∈ mp_names new ↔ is_mp p = true ∧ is_Some (new !! p).
Proof.
  unfold mp_names. rewrite list_elem_of_filter, list_elem_of_fmap.
  split.
  - intros [Hp [[k v] [-> Hkv%elem_of_map_to_list]]]. eauto.
  - intros [Hp [v Hv]]. split; [done|]. exists (p, v).
    by rewrite elem_of_map_to_list.
Qed.

(** When every lookup hits, the loop ends, and it has replaced exactly the
    listed names. *)
Lemma set_weights_ok old ps new :
  (∀ p, p ∈ ps → is_Some (old !! zero_key p)) →
  ∃ res, set_weights old ps new = Ok res ∧
    ∀ p, res !! p = if decide (p ∈ ps) then old !! zero_key p else new !! p.
Proof.
  revert new. induction ps as [|a ps IH]; intros new Hhit.
  - exists new. split; [done|]. intros p. by rewrite decide_False by set_solver.
  - destruct (Hhit a) as [v Hv]; [set_solver|].
    destruct (IH (<[a:=v]> new)) as (res & Hres & Hlook); [set_solver|].
    exists res. simpl. rewrite Hv. split; [done|]. intros p.
    rewrite Hlook. destruct (decide (p = a)) as [->|Hne].
    + rewrite (decide_True (P := a ∈ a :: ps)) by set_solver.
      case_decide; [done|]. by rewrite lookup_insert_eq.
    + rewrite lookup_insert_ne by done.
      destruct (decide (p ∈ ps)).
      * by rewrite decide_True by (apply elem_of_cons; auto).
      * rewrite decide_False; [done|]. rewrite elem_of_cons.
        intros [?|?]; done.
Qed.

(** One miss is enough for a [KeyError]. *)
Lemma set_weights_miss old ps new p :
  p ∈ ps → old !! zero_key p = None →
  ∃ k, set_weights old ps new = Raise (KeyError k).
Proof.
  revert new. induction ps as [|a ps IH]; intros new Hin Hmiss.
  - by apply elem_of_nil in Hin.
  - simpl. destruct (old !! zero_key a) as [v|] eqn:Ha; [|eauto].
    apply IH; [|done]. apply elem_of_cons in Hin as [->|Hin]; [|done].
    congruence.
Qed.

Lemma duplicate_components_ok old new :
  (∀ p, is_Some (new !! p) → is_mp p = true →
        is_Some (old !! zero_key p)) →
  ∃ res, duplicate_components old new = Ok res ∧
    ∀ p, res !! p =
         match new !! p with
         | Some v => if is_mp p then old !! zero_key p else Some v
         | None => None
         end.
Proof.
  intros Hhit. unfold duplicate_components.
  destruct (set_weights_ok old (mp_names new) new) as (res & Hres & Hlook).
  { intros p [??]%elem_of_mp_names. auto. }
  exists res. split; [done|]. intros p. rewrite Hlook.
  case_decide as Hin; rewrite elem_of_mp_names in Hin.
  - destruct Hin as [-> [v ->]]. done.
  - destruct (new !! p) as [v|] eqn:Hp; [|done].
    destruct (is_mp p) eqn:Hmp; [|done]. destruct Hin. eauto.
Qed.

Lemma duplicate_components_miss old new p :
  is_Some (new !! p) → is_mp p = true → old !! zero_key p = None →
  ∃ k, duplicate_components old new = Raise (KeyError k).
Proof.
  intros Hp Hmp Hmiss. apply set_weights_miss with p; [|done].
  by apply elem_of_mp_names.
Qed.

End SurgeryFacts.

(** ** Names with a component index *)

Section NamingFacts.
Import PyStr PyStrFacts.

Lemma indexed_0 stem : indexed stem 0 = stem +:+ "0".
Proof. reflexivity. Qed.

Lemma zero_key_indexed_small stem (c : nat) :
  (c < 10)%nat → zero_key (indexed stem c) = indexed stem 0.
Proof.
  intros Hc. unfold zero_key, indexed, pretty at 1, pretty_nat.
  rewrite pretty_N_small by lia. by rewrite but_last_snoc.
Qed.

Lemma zero_key_indexed_big stem (c : nat) :
  (10 ≤ c)%nat →
  zero_key (indexed stem c) = (stem +:+ pretty (c / 10)%nat) +:+ "0".
Proof.
  intros Hc. unfold zero_key, indexed, pretty, pretty_nat.
  rewrite pretty_N_big by lia.
  rewrite <-app_assoc, but_last_snoc.
  by rewrite Nat2N.inj_div.
Qed.

Lemma ends_in_digit_indexed stem (c : nat) :
  ends_in_digit (indexed stem c) = true.
Proof.
  unfold indexed, pretty, pretty_nat, ends_in_digit.
  destruct (pretty_N_snoc (N.of_nat c)) as [s ->].
  by rewrite <-app_assoc, last_char_snoc, is_digit_char.
Qed.

Lemma is_mp_app s t : is_mp s = true → is_mp (s +:+ t) = true.
Proof.
  unfold is_mp. intros [H|H]%orb_true_iff; apply orb_true_iff;
    [left|right]; by apply contains_app.
Qed.

Lemma wf_layout_stem L stem :
  wf_layout L = true → stem ∈ mp_stems L →
  is_mp stem = true ∧ ends_in_digit stem = false.
Proof.
  unfold wf_layout. rewrite !andb_true_iff, !forallb_forall.
  intros [[_ Hst] _] Hin%list_elem_of_In.
  specialize (Hst _ Hin). apply andb_true_iff in Hst as [? ?%negb_true_iff].
  done.
Qed.

Lemma wf_layout_shared L s :
  wf_layout L = true → s ∈ shared_names L → is_mp s = false.
Proof.
  unfold wf_layout. rewrite !andb_true_iff, !forallb_forall.
  intros [_ Hsh] Hin%list_elem_of_In. by apply negb_true_iff, Hsh.
Qed.

Lemma elem_of_param_names L n p :
  p ∈ param_names L n ↔
  p ∈ shared_names L ∨ ∃ stem c, stem ∈ mp_stems L ∧ (c < n)%nat ∧
                                 p = indexed stem c.
Proof.
  unfold param_names. rewrite elem_of_app, list_elem_of_bind.
  apply or_iff_compat_l. split.
  - intros (stem & (c & -> & Hc%elem_of_seq)%list_elem_of_fmap & Hst).
    exists stem, c. split_and!; [done|lia|done].
  - intros (stem & c & Hst & Hc & ->). exists stem. split; [|done].
    apply list_elem_of_fmap. exists c. split; [done|].
    apply elem_of_seq. lia.
Qed.

(** The key looked up for a two-digit index is not a name of a network
    with a single component. *)
Lemma zero_key_not_single L stem (c : nat) :
  wf_layout L = true → stem ∈ mp_stems L → (10 ≤ c)%nat →
  zero_key (indexed stem c) ∉ param_names L 1.
Proof.
  intros Hwf Hst Hc. rewrite zero_key_indexed_big by done.
  rewrite elem_of_param_names.
  destruct (wf_layout_stem _ _ Hwf Hst) as [Hmp _].
  intros [Hsh|(stem' & c' & Hst' & Hc' & Heq)].
  - apply (wf_layout_shared _ _ Hwf) in Hsh.
    rewrite is_mp_app in Hsh; [done|]. by apply is_mp_app.
  - assert (c' = 0)%nat as -> by lia. rewrite indexed_0 in Heq.
    apply snoc_inj in Heq as [<- _].
    destruct (wf_layout_stem _ _ Hwf Hst') as [_ Hnd].
    pose proof (ends_in_digit_indexed stem (c / 10)) as Hd.
    unfold indexed in Hd. congruence.
Qed.

End NamingFacts.

(** ** The surgery inside [run] *)

Section ExpandFacts.
Context {T : Types} (E : Collab T).
Implicit Types (self : CDELFI T) (nw : NeuralNet T).

Lemma expand_ok self nw ps :
  mk_NeuralNet E (expanded_spec self) = Ok nw →
  duplicate_components (params_dict (network (base self))) (params_dict nw)
  = Ok ps →
  expand E self
  = (Ok tt, set_base (with_network (with_params ps nw)) self).
Proof.
  intros Hnw Hps. unfold expand, expanded_spec in *. run_m.
  rewrite Hnw. cbn. rewrite Hps. reflexivity.
Qed.

(** A [KeyError] leaves the new, untrained network in place. *)
Lemma expand_miss self nw e :
  mk_NeuralNet E (expanded_spec self) = Ok nw →
  duplicate_components (params_dict (network (base self))) (params_dict nw)
  = Raise e →
  expand E self = (Raise e, set_base (with_network nw) self).
Proof.
  intros Hnw Hps. unfold expand, expanded_spec in *. run_m.
  rewrite Hnw. cbn. rewrite Hps. reflexivity.
Qed.

(** C1, as the code has it: when the constructor returns [nw] and every
    lookup hits, the surgery ends; each name of [nw] that contains [means]
    or [precisions] (component 0 included) gets the old network's value
    under the name with its last character replaced by [0], which for a
    name ending in a one-digit component index is the old component 0;
    every other name of [nw] keeps the value the constructor gave it. *)
Theorem expand_postcondition self nw :
  mk_NeuralNet E (expanded_spec self) = Ok nw →
  (∀ p, is_Some (params_dict nw !! p) → is_mp p = true →
        is_Some (params_dict (network (base self)) !! zero_key p)) →
  ∃ ps,
    expand E self
    = (Ok tt, set_base (with_network (with_params ps nw)) self) ∧
    (∀ p, ps !! p =
          match params_dict nw !! p with
          | Some v =>
              if is_mp p
              then params_dict (network (base self)) !! zero_key p
              else Some v
          | None => None
          end) ∧
    (∀ stem c, (c < 10)%nat → is_mp (indexed stem c) = true →
       is_Some (params_dict nw !! indexed stem c) →
       ps !! indexed stem c
       = params_dict (network (base self)) !! indexed stem 0).
Proof.
  intros Hnw Hhit.
  destruct (duplicate_components_ok _ _ Hhit) as (ps & Hps & Hlook).
  exists ps. split; [by apply expand_ok|]. split; [done|].
  intros stem c Hc Hmp [v Hv]. rewrite Hlook, Hv, Hmp.
  by rewrite zero_key_indexed_small.
Qed.

(** With names that end in the component index, a request for eleven or
    more components makes the surgery look up a name that a network with
    one component does not have. *)
Lemma expand_eleven L self nw :
  wf_layout L = true →
  11 ≤ n_components self →
  has_keys (params_dict (network (base self))) (param_names L 1) →
  mk_NeuralNet E (expanded_spec self) = Ok nw →
  has_keys (params_dict nw) (param_names L (Z.to_nat (n_components self))) →
  ∃ k, expand E self = (Raise (KeyError k), set_base (with_network nw) self).
Proof.
  intros Hwf Hn Hold Hnw Hnew.
  destruct (mp_stems L) as [|stem stems] eqn:Hst.
  { unfold wf_layout in Hwf. by rewrite Hst in Hwf. }
  assert (stem ∈ mp_stems L) as Hin by (rewrite Hst; left).
  destruct (duplicate_components_miss
              (params_dict (network (base self))) (params_dict nw)
              (indexed stem 10)) as [k Hk].
  - apply elem_of_dom. rewrite Hnew, elem_of_list_to_set.
    apply elem_of_param_names. right. exists stem, 10%nat.
    split_and!; [done|lia|done].
  - apply is_mp_app. by eapply wf_layout_stem.
  - apply not_elem_of_dom. rewrite Hold, elem_of_list_to_set.
    by apply zero_key_not_single.
  - exists k. by apply expand_miss.
Qed.

(** Up to ten components every lookup hits. *)
Lemma expand_up_to_ten L self nw :
  wf_layout L = true →
  n_components self ≤ 10 →
  has_keys (params_dict (network (base self))) (param_names L 1) →
  mk_NeuralNet E (expanded_spec self) = Ok nw →
  has_keys (params_dict nw) (param_names L (Z.to_nat (n_components self))) →
  ∃ ps, expand E self
        = (Ok tt, set_base (with_network (with_params ps nw)) self).
Proof.
  intros Hwf Hn Hold Hnw Hnew.
  destruct (duplicate_components_ok
              (params_dict (network (base self))) (params_dict nw))
    as (ps & Hps & _); [|exists ps; by apply expand_ok].
  intros p Hp%elem_of_dom Hmp. apply elem_of_dom.
  rewrite Hnew, elem_of_list_to_set in Hp.
  rewrite Hold, elem_of_list_to_set.
  apply elem_of_param_names in Hp as [Hsh|(stem & c & Hst & Hc & ->)].
  { apply (wf_layout_shared _ _ Hwf) in Hsh. congruence. }
  rewrite zero_key_indexed_small by lia.
  apply elem_of_param_names. right. exists stem, 0%nat.
  split_and!; [done|lia|done].
Qed.

End ExpandFacts.

Lemma lookups_hit_dec {V} (old new : gmap string V) :
  Forall (λ p, is_Some (old !! zero_key p)) (mp_names new) →
  ∀ p, is_Some (new !! p) → is_mp p = true → is_Some (old !! zero_key p).
Proof.
  intros Hall p Hp Hmp. rewrite Forall_forall in Hall. apply Hall.
  by apply elem_of_mp_names.
Qed.

Lemma expand_postcondition_witness :
  ∃ ps,
    expand Toy.collab (Toy.self_of Toy.gaussian_type None 2 true)
    = (Ok tt,
       set_base (with_network (with_params ps
         (Toy.fresh_net 0 (expanded_spec
            (Toy.self_of Toy.gaussian_type None 2 true)))))
         (Toy.self_of Toy.gaussian_type None 2 true)) ∧
    (∀ p, ps !! p =
          match params_dict (Toy.fresh_net 0 (expanded_spec
                  (Toy.self_of Toy.gaussian_type None 2 true))) !! p with
          | Some v =>
              if is_mp p
              then params_dict Toy.trained_net !! zero_key p
              else Some v
          | None => None
          end) ∧
    (∀ stem c, (c < 10)%nat → is_mp (indexed stem c) = true →
       is_Some (params_dict (Toy.fresh_net 0 (expanded_spec
                  (Toy.self_of Toy.gaussian_type None 2 true)))
                !! indexed stem c) →
       ps !! indexed stem c = params_dict Toy.trained_net !! indexed stem 0).
Proof.
  apply (expand_postcondition Toy.collab
           (Toy.self_of Toy.gaussian_type None 2 true)
           (Toy.fresh_net 0 (expanded_spec
              (Toy.self_of Toy.gaussian_type None 2 true)))).
  - reflexivity.
  - apply lookups_hit_dec. compute_done.
Defined.

(** C1, as stated, fails: the network has learnt the value 1 for
    [hidden.mW]; after the expansion to two components the new network
    holds the constructor's 0 there, not the old value. *)
Lemma expand_resets_shared_weights :
  let self := Toy.self_of Toy.gaussian_type None 2 true in
  let old := params_dict (network (base self)) in
  let new := params_dict (network (base (expand Toy.collab self).2)) in
  (expand Toy.collab self).1 = Ok tt ∧
  ¬ (duplicates_component0 old new ∧ shared_copied old new).
Proof.
  intros self old new. split; [by vm_compute|].
  intros [_ Hsh]. specialize (Hsh "hidden.mW" eq_refl).
  assert (is_Some (new !! "hidden.mW")) as Hnew.
  { exists 0. by vm_compute. }
  specialize (Hsh Hnew). vm_compute in Hsh. discriminate Hsh.
Qed.

(** ** The loop *)

Section LoopFacts.
Context {S A B : Type}.
Implicit Types (body : Z → M S (A * B)) (rs : list Z).

Lemma rounds_app body rs1 rs2 l d s :
  rounds body (rs1 ++ rs2) l d s
  = match rounds body rs1 l d s with
    | (Ok ld, s') => rounds body rs2 ld.1 ld.2 s'
    | (Raise e, s') => (Raise e, s')
    end.
Proof.
  revert l d s. induction rs1 as [|r rs1 IH]; intros l d s; [done|].
  cbn [app rounds]. unfold bind.
  destruct (body r s) as [[ld|e] s1]; [apply IH|done].
Qed.

(** A run of passes that all return: the accumulators grow by one entry
    per pass, in the order of the passes. *)
Lemma rounds_steps body rs s xs s' l d :
  steps body rs s xs s' →
  rounds body rs l d s = (Ok (l ++ xs.*1, d ++ xs.*2), s').
Proof.
  intros Hst. revert l d.
  induction Hst as [s|r rs s x s1 xs s2 Hx _ IH]; intros l d.
  - cbn. unfold ret. by rewrite !app_nil_r.
  - cbn [rounds]. unfold bind. rewrite Hx, IH.
    by rewrite !fmap_cons, <-!app_assoc.
Qed.

(** An exception in a pass ends the loop with that exception. *)
Lemma rounds_raise body rs1 r rs2 s xs s1 e s2 l d :
  steps body rs1 s xs s1 →
  body r s1 = (Raise e, s2) →
  rounds body (rs1 ++ r :: rs2) l d s = (Raise e, s2).
Proof.
  intros Hst Hr. rewrite rounds_app, (rounds_steps _ _ _ _ _ _ _ Hst).
  cbn [rounds]. unfold bind. by rewrite Hr.
Qed.

Lemma steps_app body rs1 rs2 s xs1 s1 xs2 s2 :
  steps body rs1 s xs1 s1 → steps body rs2 s1 xs2 s2 →
  steps body (rs1 ++ rs2) s (xs1 ++ xs2) s2.
Proof.
  intros H1 H2. induction H1; [done|]. cbn. econstructor; eauto.
Qed.

Lemma steps_length body rs s xs s' :
  steps body rs s xs s' → length xs = length rs.
Proof. induction 1; cbn; congruence. Qed.

(** Passes that keep an invariant and return under it can be chained. *)
Lemma steps_inv (P : S → Prop) body rs s :
  (∀ r s, r ∈ rs → P s → ∃ x s', body r s = (Ok x, s') ∧ P s') →
  P s → ∃ xs s', steps body rs s xs s' ∧ P s'.
Proof.
  revert s. induction rs as [|r rs IH]; intros s Hbody Hs.
  - exists [], s. split; [constructor|done].
  - destruct (Hbody r s) as (x & s1 & Hx & Hs1); [left|done|].
    destruct (IH s1) as (xs & s2 & Hxs & Hs2); [|done|].
    { intros r' s' Hr'. apply Hbody. by right. }
    exists (x :: xs), s2. split; [by econstructor|done].
Qed.

(** The states between the passes: pass [i] starts in state [i] and ends in
    state [i + 1]. *)
Lemma steps_states body rs s xs s' :
  steps body rs s xs s' →
  ∃ sts : list S,
    sts !! 0%nat = Some s ∧ sts !! length rs = Some s' ∧
    ∀ (i : nat) r, rs !! i = Some r →
      ∃ x s1 s2, xs !! i = Some x ∧ sts !! i = Some s1 ∧
                 sts !! Datatypes.S i = Some s2 ∧ body r s1 = (Ok x, s2).
Proof.
  induction 1 as [s|r rs s x s1 xs s2 Hx _ (sts & H0 & Hlast & Hi)].
  - exists [s]. split_and!; [done..|]. intros i r Hr. by destruct i.
  - exists (s :: sts). split_and!; [done..|]. intros [|i] r' Hr'.
    + injection Hr' as <-. exists x, s, s1. by split_and!.
    + by apply Hi.
Qed.

End LoopFacts.

Lemma py_range_length a b : length (py_range a b) = Z.to_nat (b - a).
Proof. unfold py_range. by rewrite length_map, length_seq. Qed.

Lemma py_range_lookup a b (i : nat) :
  (i < Z.to_nat (b - a))%nat → py_range a b !! i = Some (a + Z.of_nat i).
Proof.
  intros Hi. unfold py_range. rewrite list_lookup_fmap.
  by rewrite lookup_seq_lt.
Qed.

Lemma elem_of_py_range a b r : r ∈ py_range a b ↔ a ≤ r < b.
Proof.
  unfold py_range. rewrite list_elem_of_fmap. split.
  - intros (i & -> & Hi%elem_of_seq). lia.
  - intros Hr. exists (Z.to_nat (r - a)). split; [lia|].
    apply elem_of_seq. lia.
Qed.

Lemma py_range_snoc R : 1 ≤ R → py_range 1 (R + 1) = py_range 1 R ++ [R].
Proof.
  intros HR. unfold py_range.
  replace (Z.to_nat (R + 1 - 1)) with (Datatypes.S (Z.to_nat (R - 1))) by lia.
  rewrite seq_S, fmap_app. cbn. do 2 f_equal. lia.
Qed.

(** ** [run] *)

Section RunFacts.
Context {T : Types} (E : Collab T).
Implicit Types (self s : CDELFI T) (R r n_train epochs minibatch : Z).
Implicit Types (mon : option (list string)) (kwargs : gmap string pyval).

Lemma run_unfold n_train R epochs minibatch mon kwargs :
  1 ≤ R →
  run E n_train R epochs minibatch mon kwargs
  = rounds (round E n_train R epochs minibatch mon kwargs)
      (py_range 1 R ++ [R]) [] [].
Proof. intros HR. unfold run. by rewrite py_range_snoc. Qed.

(** In the last pass the surgery runs right after the draw; if it raises,
    so does the pass. *)
Lemma round_final_raise n_train R epochs minibatch mon kwargs s d e s' :
  base_gen E (generator (base s)) n_train = Ok d →
  1 < n_components s →
  expand E (drawn d.2 s) = (Raise e, s') →
  round E n_train R epochs minibatch mon kwargs R s = (Raise e, s').
Proof.
  intros Hd Hn He. unfold round, gen. run_m. rewrite Hd. cbn [fst snd].
  fold (drawn d.2 s). rewrite Z.eqb_refl.
  replace (1 <? n_components (drawn d.2 s)) with true
    by (symmetry; apply Z.ltb_lt; done).
  cbn [andb]. by rewrite He.
Qed.

(** C10: with parameter names that end in the decimal component index and
    a request for eleven or more components, [run] fails with a
    [KeyError]: once the earlier passes have returned and the last draw
    and the constructor of the new network have returned, the surgery
    looks up a name that the one-component network does not have. *)
Theorem run_eleven_components L n_train R epochs minibatch mon kwargs
    self lds s d nw :
  wf_layout L = true →
  1 ≤ R →
  11 ≤ n_components s →
  steps (round E n_train R epochs minibatch mon kwargs) (py_range 1 R)
    self lds s →
  base_gen E (generator (base s)) n_train = Ok d →
  has_keys (params_dict (network (base s))) (param_names L 1) →
  mk_NeuralNet E (expanded_spec s) = Ok nw →
  has_keys (params_dict nw) (param_names L (Z.to_nat (n_components s))) →
  ∃ k s', run E n_train R epochs minibatch mon kwargs self
          = (Raise (KeyError k), s').
Proof.
  intros Hwf HR Hn Hsteps Hd Hold Hnw Hnew.
  destruct (expand_eleven E L (drawn d.2 s) nw) as [k Hk]; try done.
  exists k, (set_base (with_network nw) (drawn d.2 s)).
  rewrite run_unfold by done.
  apply rounds_raise with lds s; [done|].
  apply round_final_raise with d; [done|cbn; lia|done].
Qed.

Lemma predict_ok x s :
  total_collab E →
  supported_prior (type_str E (prior (generator (base s)))) = true →
  ∃ post, predict E x s = (Ok post, s).
Proof.
  intros Htot Hsup. unfold predict. run_m.
  destruct (predict_total E Htot (network (base s)) x) as [mog ->].
  destruct (proposal (generator (base s))) as [prop|]; [|eauto].
  unfold supported_prior in Hsup.
  destruct (PyStr.contains "Uniform" _).
  { destruct (truediv_total E Htot mog prop) as [q ->]. eauto. }
  cbn in Hsup. rewrite Hsup.
  destruct (mul_total E Htot mog (prior (generator (base s)))) as [m ->].
  destruct (truediv_total E Htot m prop) as [q ->]. eauto.
Qed.

(** A pass returns when the collaborators do, [svi] is on, the sample
    count is not zero, the prior is of a supported type and the lookups of
    a due surgery hit; a pass before the last one keeps all that. *)
Lemma round_ok K pr nc n_train R epochs minibatch mon kwargs r s :
  total_collab E →
  n_train ≠ 0 →
  supported_prior (type_str E pr) = true →
  (1 < nc → train_keeps_names E ∧ lookups_hit E K nc) →
  round_inv K pr nc s →
  ∃ ld s', round E n_train R epochs minibatch mon kwargs r s = (Ok ld, s') ∧
           (r ≠ R → round_inv K pr nc s').
Proof.
  intros Htot HN Hsup Hsurg (Hsvi & Hpr & Hnc & Hdom).
  unfold round, gen. run_m.
  destruct (gen_total E Htot (generator (base s)) n_train) as [[d sm] ->].
  cbn [fst snd]. fold (drawn sm s).
  (* the surgery, when it is due *)
  assert (∃ nw', (if (r =? R) && (1 <? n_components (drawn sm s))
                  then expand E else ret tt) (drawn sm s)
                 = (Ok tt, set_base (with_network nw') (drawn sm s)) ∧
                 (r ≠ R → nw' = network (base s))) as (nw' & Hx & Hnw').
  { destruct (Z.eqb_spec r R) as [->|Hne]; cbn [andb].
    - destruct (Z.ltb_spec 1 (n_components (drawn sm s))) as [Hlt|_].
      + destruct (NeuralNet_total E Htot (expanded_spec (drawn sm s)))
          as [nw Hnw].
        cbn in Hlt. rewrite Hnc in Hlt.
        destruct (Hsurg Hlt) as [_ Hhit].
        destruct (duplicate_components_ok
                    (params_dict (network (base (drawn sm s))))
                    (params_dict nw)) as (ps & Hps & _).
        { intros p Hp Hmp. apply elem_of_dom. cbn. rewrite Hdom by done.
          eapply Hhit; [|done..]. unfold expanded_spec. cbn.
          by rewrite Hnc, lookup_insert_eq. }
        exists (with_params ps nw). split; [|done].
        by apply expand_ok.
      + exists (network (base s)). split; [|done].
        unfold ret. by destruct s as [[]].
    - exists (network (base s)). split; [|done].
      unfold ret. by destruct s as [[]]. }
  unfold ret in Hx. rewrite Hx. clear Hx.
  set (s1 := set_base (with_network nw') (drawn sm s)).
  rewrite (loss_svi_on_eq n_train s1 Hsvi HN). cbn [fst snd].
  match goal with |- context [monitor_dict_from_names E ?o ?m] =>
    destruct (monitor_total E Htot o m) as [mn ->] end.
  unfold gen_newseed. run_m. subst s1.
  cbn [base set_base seed with_observables with_network with_generator
       drawn].
  destruct (seed (base s)) as [sd|]; cbn [fst snd].
  all: match goal with |- context [mk_Trainer E ?a ?b ?c ?d ?e ?f] =>
    destruct (Trainer_total E Htot a b c d e f) as [t ->] end.
  all: match goal with |- context [train E ?a ?b ?c ?d] =>
    destruct (train_total E Htot a b c d) as [[lg nw2] Htr]; rewrite Htr end.
  all: cbn [fst snd].
  all: match goal with |- context [predict E ?x ?s2] =>
    destruct (predict_ok x s2 Htot) as [post ->];
      [cbn; by rewrite Hpr|] end.
  all: match goal with |- context [project_to_gaussian E ?p] =>
    destruct (project_total E Htot p) as [g ->] end.
  all: eexists _, _; split; [reflexivity|].
  all: intros Hne; split_and!; cbn; try done.
  all: intros Hlt; destruct (Hsurg Hlt) as [Hkeep _].
  all: rewrite (Hkeep _ _ _ _ _ _ Htr); cbn; rewrite (Hnw' Hne); auto.
Qed.

(** A condition on the collaborators alone under which a run returns:
    every operation returns on every argument, training keeps the
    parameter names and the constructor's names are all found by the
    surgery. *)
Lemma run_returns_when_total n_train R epochs minibatch mon kwargs self :
  total_collab E →
  1 ≤ R →
  svi (base self) = true →
  n_train ≠ 0 →
  supported_prior (type_str E (prior (generator (base self)))) = true →
  (1 < n_components self →
   train_keeps_names E ∧
   lookups_hit E (dom (params_dict (network (base self))))
     (n_components self)) →
  ∃ logs dsets (sts : list (CDELFI T)) s',
    run E n_train R epochs minibatch mon kwargs self
    = (Ok (logs, dsets), s') ∧
    length logs = Z.to_nat R ∧ length dsets = Z.to_nat R ∧
    sts !! 0%nat = Some self ∧ sts !! Z.to_nat R = Some s' ∧
    ∀ i : nat, (i < Z.to_nat R)%nat →
      ∃ l d s1 s2,
        logs !! i = Some l ∧ dsets !! i = Some d ∧
        sts !! i = Some s1 ∧ sts !! Datatypes.S i = Some s2 ∧
        round E n_train R epochs minibatch mon kwargs (Z.of_nat i + 1) s1
        = (Ok (l, d), s2).
Proof.
  intros Htot HR Hsvi HN Hsup Hsurg.
  set (K := dom (params_dict (network (base self)))) in *.
  set (pr := prior (generator (base self))) in *.
  set (nc := n_components self) in *.
  set (body := round E n_train R epochs minibatch mon kwargs).
  assert (round_inv K pr nc self) as Hinv by done.
  destruct (steps_inv (round_inv K pr nc) body (py_range 1 R) self)
    as (xs & s1 & Hxs & Hs1); [|done|].
  { intros r s Hr%elem_of_py_range Hs.
    destruct (round_ok K pr nc n_train R epochs minibatch mon kwargs r s)
      as (ld & s' & Hld & Hs'); try done.
    exists ld, s'. split; [done|]. apply Hs'. lia. }
  destruct (round_ok K pr nc n_train R epochs minibatch mon kwargs R s1)
    as (ld & s' & Hld & _); try done.
  assert (steps body (py_range 1 (R + 1)) self (xs ++ [ld]) s') as Hall.
  { rewrite py_range_snoc by done. eapply steps_app; [done|].
    econstructor; [done|constructor]. }
  assert (length (xs ++ [ld]) = Z.to_nat R) as Hlen.
  { rewrite (steps_length _ _ _ _ _ Hall), py_range_length. lia. }
  destruct (steps_states _ _ _ _ _ Hall) as (sts & H0 & Hlast & Hi).
  exists (xs ++ [ld]).*1, (xs ++ [ld]).*2, sts, s'.
  split_and!.
  - exact (rounds_steps _ _ _ _ _ [] [] Hall).
  - by rewrite length_fmap.
  - by rewrite length_fmap.
  - done.
  - rewrite py_range_length in Hlast.
    by replace (Z.to_nat (R + 1 - 1)) with (Z.to_nat R) in Hlast by lia.
  - intros i Hlt.
    destruct (Hi i (1 + Z.of_nat i)) as (x & sa & sb & Hx & Ha & Hb & Hr).
    { apply py_range_lookup. lia. }
    exists x.1, x.2, sa, sb. rewrite !list_lookup_fmap, Hx.
    split_and!; try done.
    replace (Z.of_nat i + 1) with (1 + Z.of_nat i) by lia.
    by destruct x.
Qed.

End RunFacts.

Lemma run_eleven_components_witness :
  ∃ k s', run Toy.collab 100 1 1000 50 None ∅
            (Toy.self_of Toy.gaussian_type None 11 true)
          = (Raise (KeyError k), s').
Proof.
  apply (run_eleven_components Toy.collab Toy.toy_layout 100 1 1000 50
           None ∅ (Toy.self_of Toy.gaussian_type None 11 true) []
           (Toy.self_of Toy.gaussian_type None 11 true) (0, 1)
           (Toy.fresh_net 0 (expanded_spec
              (Toy.self_of Toy.gaussian_type None 11 true)))).
  - reflexivity.
  - lia.
  - simpl. lia.
  - constructor.
  - reflexivity.
  - by vm_compute.
  - reflexivity.
  - by vm_compute.
Defined.

(** ** The small instance *)

Module ToyFacts.
Import Toy.

Lemma total : total_collab collab.
Proof. split; intros; eexists; reflexivity. Qed.

Lemma keeps_names : train_keeps_names collab.
Proof.
  intros t nw ep mb l nw' [= _ <-]. cbn. apply dom_fmap_L.
Qed.

Lemma fresh_net_names init spec p :
  is_Some (params_dict (fresh_net init spec) !! p) →
  p ∈ param_names toy_layout (count_of spec).
Proof.
  unfold fresh_net. cbn [params_dict].
  intros [v Hv]. apply elem_of_list_to_map_2 in Hv.
  apply list_elem_of_fmap in Hv as (q & [= -> _] & Hq). done.
Qed.

Lemma hits_two : lookups_hit collab (dom (params_dict trained_net)) 2.
Proof.
  intros spec nw p Hspec [= <-] Hp Hmp.
  apply fresh_net_names in Hp. unfold count_of in Hp. rewrite Hspec in Hp.
  change (Z.to_nat 2) with 2%nat in Hp.
  apply elem_of_param_names in Hp as [Hsh|(stem & c & Hst & Hc & ->)].
  - apply (wf_layout_shared toy_layout) in Hsh; [congruence|done].
  - rewrite zero_key_indexed_small by lia.
    cbn in Hst. rewrite !elem_of_cons in Hst.
    destruct Hst as [->|[->|[]%elem_of_nil]]; by vm_compute.
Qed.

End ToyFacts.

(** C8, as stated, fails: every collaborator call returns, but with a
    Student-t prior the second pass of a two-round run raises in
    [predict], so [run] returns nothing. *)
Lemma run_unsupported_prior_raises :
  total_collab Toy.collab ∧
  ¬ ∃ logs dsets s',
      run Toy.collab 100 2 1000 50 None ∅
        (Toy.self_of Toy.studentst_type None 1 true)
      = (Ok (logs, dsets), s').
Proof.
  split; [exact ToyFacts.total|].
  intros (logs & dsets & s' & Hrun).
  assert ((run Toy.collab 100 2 1000 50 None ∅
             (Toy.self_of Toy.studentst_type None 1 true)).1
          = Raise (TypeError "exceptions must derive from BaseException"))
    as Hraise by (by vm_compute).
  rewrite Hrun in Hraise. discriminate Hraise.
Qed.

(** ** The constructor *)

Section InitFacts.
Context {T : Types} (E : Collab T).
Implicit Types (self : CDELFI T) (kwargs : gmap string pyval).



End InitFacts.


(** * Further properties of the code *)

(** ** [predict] and [loss] *)

Section MoreMethodFacts.
Context {T : Types} (E : Collab T).
Implicit Types (self : CDELFI T) (x : stats T) (N : Z).

(** X1: [predict] changes no attribute of [self], of its generator or of
    its network, whether it returns or raises. *)
Theorem predict_never_assigns x self : (predict E x self).2 = self.
Proof. apply predict_state. Qed.

(** X2: the network is evaluated before the prior is looked at: when the
    base class's [predict] raises, [predict] raises the same exception,
    whatever the proposal and the type of the prior. *)
Theorem predict_network_error_first x self e :
  base_predict E (network (base self)) x = Raise e →
  predict E x self = (Raise e, self).
Proof.
  intros He. unfold predict. run_m. rewrite He.
  by destruct (proposal (generator (base self))).
Qed.

(** X3: with [svi] on, [loss(0)] raises [ZeroDivisionError], and
    [observables] is left as it was. *)
Theorem loss_zero_samples self :
  svi (base self) = true →
  loss 0 self = (Raise ZeroDivisionError, self).
Proof. apply loss_svi_on_zero. Qed.

(** X4: with [svi] on and [N] not zero, [loss(N)] stores the KL node under
    ['loss.kl'] in [observables] and changes nothing else; a second call
    leaves the state the first call left. *)
Theorem loss_registers_kl N N' self :
  svi (base self) = true → N ≠ 0 → N' ≠ 0 →
  let kl := SviKlZero (mps (network (base self)))
              (sps (network (base self))) (reg_lambda self) in
  let self' := (loss N self).2 in
  observables (base self') !! "loss.kl" = Some kl ∧
  (∀ k, k ≠ "loss.kl" →
        observables (base self') !! k = observables (base self) !! k) ∧
  network (base self') = network (base self) ∧
  generator (base self') = generator (base self) ∧
  rng_state (base self') = rng_state (base self) ∧
  same_config self self' ∧
  (loss N' self').2 = self'.
Proof.
  intros Hs HN HN' kl self'. subst self'.
  rewrite (loss_svi_on_eq N self Hs HN). cbn [snd].
  split_and!.
  - cbn. by rewrite lookup_insert_eq.
  - intros k Hk. cbn. by rewrite lookup_insert_ne.
  - done.
  - done.
  - done.
  - done.
  - rewrite loss_svi_on_eq by done. cbn.
    unfold set_base, with_observables. cbn. by rewrite insert_insert_eq.
Qed.

End MoreMethodFacts.

Lemma predict_network_error_first_witness :
  predict (with_base_predict (λ _ _, Raise (External "nan")) Toy.collab) 0
    (Toy.self_of Toy.studentst_type (Some (Toy.Atom Toy.gaussian_type))
       1 true)
  = (Raise (External "nan"),
     Toy.self_of Toy.studentst_type (Some (Toy.Atom Toy.gaussian_type))
       1 true).
Proof.
  apply predict_network_error_first. reflexivity.
Defined.

Lemma loss_zero_samples_witness :
  loss 0 (Toy.self_of Toy.gaussian_type None 1 true)
  = (Raise ZeroDivisionError, Toy.self_of Toy.gaussian_type None 1 true).
Proof. apply loss_zero_samples. reflexivity. Defined.

Lemma loss_registers_kl_witness :
  let self := Toy.self_of Toy.gaussian_type None 1 true in
  let self' := (loss 100 self).2 in
  observables (base self') !! "loss.kl"
  = Some (SviKlZero ["mW"] ["sW"] 100%Q) ∧
  (∀ k, k ≠ "loss.kl" →
        observables (base self') !! k = observables (base self) !! k) ∧
  network (base self') = network (base self) ∧
  generator (base self') = generator (base self) ∧
  rng_state (base self') = rng_state (base self) ∧
  same_config self self' ∧
  (loss 50 self').2 = self'.
Proof.
  intros self self'.
  apply (loss_registers_kl 100 50 self); [reflexivity|lia|lia].
Defined.

(** ** The surgery *)

Section MoreSurgeryFacts.
Context {V : Type}.
Implicit Types (old new : gmap string V) (ps : list string) (p : string).

Lemma set_weights_dom old ps new res :
  set_weights old ps new = Ok res →
  (∀ p, p ∈ ps → is_Some (new !! p)) →
  dom res = dom new.
Proof.
  revert new. induction ps as [|a ps IH]; intros new Hres Hin.
  - by injection Hres as <-.
  - simpl in Hres. destruct (old !! zero_key a) as [v|]; [|done].
    rewrite (IH _ Hres).
    + rewrite dom_insert_L. apply subseteq_union_1_L.
      apply singleton_subseteq_l, elem_of_dom, Hin. left.
    + intros p Hp. rewrite lookup_insert_is_Some.
      destruct (decide (a = p)); [by left|right].
      split; [done|]. apply Hin. by right.
Qed.

(** The key a [KeyError] of the loop reports is a key the old dictionary
    does not have. *)
Lemma set_weights_raise old ps new e :
  set_weights old ps new = Raise e →
  ∃ p, p ∈ ps ∧ e = KeyError (zero_key p) ∧ old !! zero_key p = None.
Proof.
  revert new. induction ps as [|a ps IH]; intros new Hres; [done|].
  simpl in Hres. destruct (old !! zero_key a) as [v|] eqn:Ha.
  - destruct (IH _ Hres) as (p & Hp & He & Hmiss).
    exists p. split; [by right|done].
  - injection Hres as <-. exists a. split; [left|done].
Qed.

Lemma set_weights_ok_inv old ps new res :
  set_weights old ps new = Ok res →
  ∀ p, p ∈ ps → is_Some (old !! zero_key p).
Proof.
  revert new. induction ps as [|a ps IH]; intros new Hres p Hp.
  - by apply elem_of_nil in Hp.
  - simpl in Hres. destruct (old !! zero_key a) as [v|] eqn:Ha; [|done].
    apply elem_of_cons in Hp as [->|Hp]; [by rewrite Ha|by eapply IH].
Qed.

End MoreSurgeryFacts.

Section MoreNamingFacts.
Import PyStr PyStrFacts.

(** X7: for a name that ends in the decimal component index [c], the key
    [p[:-1] + '0'] is the name of component [10 * (c // 10)]: component 0
    for a one-digit index, component 10 for the indices 10 to 19, and so
    on. *)
Theorem zero_key_indexed stem (c : nat) :
  zero_key (indexed stem c) = indexed stem (10 * (c / 10)).
Proof.
  destruct (decide (c < 10)%nat) as [Hc|Hc].
  - rewrite zero_key_indexed_small by done.
    by rewrite Nat.div_small, Nat.mul_0_r.
  - rewrite zero_key_indexed_big by lia.
    assert (0 < c / 10)%nat by (apply Nat.div_str_pos; lia).
    unfold indexed, pretty at 2, pretty_nat.
    rewrite pretty_N_big by lia.
    rewrite Nat2N.inj_mul. change (N.of_nat 10) with 10%N.
    rewrite N.mul_comm, N.div_mul, N.Div0.mod_mul by done.
    by rewrite app_assoc.
Qed.

End MoreNamingFacts.

Section MoreExpandFacts.
Context {T : Types} (E : Collab T).
Implicit Types (self : CDELFI T) (nw : NeuralNet T).

(** X5: a surgery that ends gives the new network exactly the parameter
    names the constructor gave it, no more and no fewer, under the new
    spec; the generator, [observables] and the constructor-set attributes
    of [self] are as before. *)
Theorem expand_keeps_names self nw s' :
  mk_NeuralNet E (expanded_spec self) = Ok nw →
  expand E self = (Ok tt, s') →
  dom (params_dict (network (base s'))) = dom (params_dict nw) ∧
  spec_dict (network (base s')) = spec_dict nw ∧
  generator (base s') = generator (base self) ∧
  observables (base s') = observables (base self) ∧
  same_config self s'.
Proof.
  intros Hnw Hex. unfold expand in Hex. run_m_in Hex. rewrite Hnw in Hex.
  cbn in Hex.
  destruct (duplicate_components _ _) as [ps|e] eqn:Hps; [|done].
  injection Hex as <-. cbn. split_and!; try done.
  apply (set_weights_dom _ _ _ _ Hps).
  by intros p [_ ?]%elem_of_mp_names.
Qed.

(** X6: once the constructor has returned, the only exception the surgery
    raises is a [KeyError], for a key [p[:-1] + '0'] that the old
    dictionary does not have; [self.network] is then already the new,
    untrained network. *)
Theorem expand_keyerror_is_sound self nw e s' :
  mk_NeuralNet E (expanded_spec self) = Ok nw →
  expand E self = (Raise e, s') →
  s' = set_base (with_network nw) self ∧
  ∃ p, is_Some (params_dict nw !! p) ∧ is_mp p = true ∧
       e = KeyError (zero_key p) ∧
       params_dict (network (base self)) !! zero_key p = None.
Proof.
  intros Hnw Hex. unfold expand in Hex. run_m_in Hex. rewrite Hnw in Hex.
  cbn in Hex.
  destruct (duplicate_components _ _) as [ps|e'] eqn:Hps; [done|].
  injection Hex as <- <-. split; [done|].
  destruct (set_weights_raise _ _ _ _ Hps) as (p & Hp & He & Hmiss).
  apply elem_of_mp_names in Hp as [Hmp Hsome]. by exists p.
Qed.

(** X8: with names that end in the component index and a request for at
    most ten components, the surgery ends and every component of every
    indexed block of the new network holds the old network's component
    0. *)
Theorem expand_replicates_component0 L self nw :
  wf_layout L = true →
  n_components self ≤ 10 →
  has_keys (params_dict (network (base self))) (param_names L 1) →
  mk_NeuralNet E (expanded_spec self) = Ok nw →
  has_keys (params_dict nw) (param_names L (Z.to_nat (n_components self))) →
  ∃ ps,
    expand E self
    = (Ok tt, set_base (with_network (with_params ps nw)) self) ∧
    ∀ stem (c : nat),
      stem ∈ mp_stems L → (c < Z.to_nat (n_components self))%nat →
      is_Some (ps !! indexed stem c) ∧
      ps !! indexed stem c
      = params_dict (network (base self)) !! indexed stem 0.
Proof.
  intros Hwf Hn Hold Hnw Hnew.
  assert (∀ stem (c : nat), stem ∈ mp_stems L →
            (c < Z.to_nat (n_components self))%nat →
            is_Some (params_dict nw !! indexed stem c)) as Hin_new.
  { intros stem c Hst Hc. apply elem_of_dom.
    rewrite Hnew, elem_of_list_to_set. apply elem_of_param_names.
    right. by exists stem, c. }
  assert (∀ stem, stem ∈ mp_stems L →
            is_Some (params_dict (network (base self)) !! indexed stem 0))
    as Hin_old.
  { intros stem Hst. apply elem_of_dom.
    rewrite Hold, elem_of_list_to_set. apply elem_of_param_names.
    right. exists stem, 0%nat. split_and!; [done|lia|done]. }
  destruct (duplicate_components_ok
              (params_dict (network (base self))) (params_dict nw))
    as (ps & Hps & Hlook).
  { intros p Hp%elem_of_dom Hmp.
    rewrite Hnew, elem_of_list_to_set in Hp.
    apply elem_of_param_names in Hp as [Hsh|(stem & c & Hst & Hc & ->)].
    { apply (wf_layout_shared _ _ Hwf) in Hsh. congruence. }
    rewrite zero_key_indexed_small by lia. by apply Hin_old. }
  exists ps. split; [by apply expand_ok|].
  intros stem c Hst Hc.
  destruct (Hin_new stem c Hst Hc) as [v Hv].
  assert (is_mp (indexed stem c) = true) as Hmp.
  { apply is_mp_app. by eapply wf_layout_stem. }
  rewrite Hlook, Hv, Hmp, zero_key_indexed_small by lia.
  split; [by apply Hin_old|done].
Qed.

End MoreExpandFacts.

Lemma expand_keeps_names_witness :
  let self := Toy.self_of Toy.gaussian_type None 2 true in
  let nw := Toy.fresh_net 0 (expanded_spec self) in
  let s' := (expand Toy.collab self).2 in
  dom (params_dict (network (base s'))) = dom (params_dict nw) ∧
  spec_dict (network (base s')) = spec_dict nw ∧
  generator (base s') = generator (base self) ∧
  observables (base s') = observables (base self) ∧
  same_config self s'.
Proof.
  intros self nw s'.
  apply (expand_keeps_names Toy.collab self nw s'); [reflexivity|].
  by vm_compute.
Defined.

Lemma expand_keyerror_is_sound_witness :
  let self := Toy.self_of Toy.gaussian_type None 11 true in
  let nw := Toy.fresh_net 0 (expanded_spec self) in
  let s' := (expand Toy.collab self).2 in
  s' = set_base (with_network nw) self ∧
  ∃ p, is_Some (params_dict nw !! p) ∧ is_mp p = true ∧
       KeyError "means.mW10" = KeyError (zero_key p) ∧
       params_dict (network (base self)) !! zero_key p = None.
Proof.
  intros self nw s'.
  apply (expand_keyerror_is_sound Toy.collab self nw
           (KeyError "means.mW10") s'); [reflexivity|].
  by vm_compute.
Defined.

Lemma expand_replicates_component0_witness :
  let self := Toy.self_of Toy.gaussian_type None 3 true in
  let nw := Toy.fresh_net 0 (expanded_spec self) in
  ∃ ps,
    expand Toy.collab self
    = (Ok tt, set_base (with_network (with_params ps nw)) self) ∧
    ∀ stem (c : nat),
      stem ∈ mp_stems Toy.toy_layout →
      (c < Z.to_nat (n_components self))%nat →
      is_Some (ps !! indexed stem c) ∧
      ps !! indexed stem c
      = params_dict (network (base self)) !! indexed stem 0.
Proof.
  intros self nw.
  apply (expand_replicates_component0 Toy.collab Toy.toy_layout self nw).
  - reflexivity.
  - simpl. lia.
  - by vm_compute.
  - reflexivity.
  - by vm_compute.
Defined.

(** ** More on the loop *)

Lemma py_range_nil a b : b ≤ a → py_range a b = [].
Proof.
  intros Hab. unfold py_range.
  by replace (Z.to_nat (b - a)) with 0%nat by lia.
Qed.

Lemma map_seq_shift {X} (f g : nat → X) m n k :
  (∀ i, f (n + i)%nat = g (k + i)%nat) →
  map f (seq n m) = map g (seq k m).
Proof.
  revert n k. induction m as [|m IH]; intros n k Hfg; [done|].
  cbn [seq map]. f_equal.
  - specialize (Hfg 0%nat). by rewrite !Nat.add_0_r in Hfg.
  - apply IH. intros i. specialize (Hfg (Datatypes.S i)).
    by rewrite !Nat.add_succ_r in Hfg.
Qed.

Lemma py_range_split a r b :
  a ≤ r < b → py_range a b = py_range a r ++ r :: py_range (r + 1) b.
Proof.
  intros Hr. unfold py_range.
  replace (Z.to_nat (b - a))
    with (Z.to_nat (r - a) + Datatypes.S (Z.to_nat (b - (r + 1))))%nat
    by lia.
  rewrite seq_app, map_app. f_equal. cbn [seq map].
  f_equal; [lia|].
  apply map_seq_shift. intros i. lia.
Qed.

Section MoreLoopFacts.
Context {S A B : Type}.
Implicit Types (body : Z → M S (A * B)) (rs : list Z).

(** A loop that returns went through every pass. *)
Lemma rounds_ok_steps body rs l d s l' d' s' :
  rounds body rs l d s = (Ok (l', d'), s') →
  ∃ xs, steps body rs s xs s' ∧ l' = l ++ xs.*1 ∧ d' = d ++ xs.*2.
Proof.
  revert l d s. induction rs as [|r rs IH]; intros l d s Hrun.
  - injection Hrun as <- <- <-. exists []. rewrite !app_nil_r.
    split; [constructor|done].
  - cbn [rounds] in Hrun. unfold bind in Hrun.
    destruct (body r s) as [[x|e] s1] eqn:Hx; [|done].
    destruct (IH _ _ _ Hrun) as (xs & Hxs & -> & ->).
    exists (x :: xs). rewrite !fmap_cons, <-!app_assoc.
    split; [by econstructor|done].
Qed.

Lemma steps_snoc_inv body rs r s xs s' :
  steps body (rs ++ [r]) s xs s' →
  ∃ xs1 s1 x, steps body rs s xs1 s1 ∧ body r s1 = (Ok x, s') ∧
              xs = xs1 ++ [x].
Proof.
  revert s xs. induction rs as [|r0 rs IH]; intros s xs Hst.
  - inversion Hst as [|? ? ? x s1 xs' ? Hx Hrest]; subst.
    inversion Hrest; subst. exists [], s, x.
    split; [constructor|done].
  - inversion Hst as [|? ? ? x s1 xs' ? Hx Hrest]; subst.
    destruct (IH _ _ Hrest) as (xs1 & s2 & y & Hxs1 & Hy & ->).
    exists (x :: xs1), s2, y. split; [by econstructor|done].
Qed.

(** Two bodies that agree on the states an invariant allows give the same
    loop. *)
Lemma rounds_ext (P : S → Prop) body1 body2 rs l d s :
  (∀ r s, P s → body1 r s = body2 r s) →
  (∀ r s, P s → P (body2 r s).2) →
  P s →
  rounds body1 rs l d s = rounds body2 rs l d s.
Proof.
  intros Heq Hpres. revert l d s.
  induction rs as [|r rs IH]; intros l d s Hs; [done|].
  cbn [rounds]. unfold bind. rewrite (Heq r s Hs).
  specialize (Hpres r s Hs).
  destruct (body2 r s) as [[x|e] s1]; [by apply IH|done].
Qed.

(** What every pass keeps, the loop keeps, whether it returns or
    raises. *)
Lemma rounds_keeps (P : S → Prop) body rs l d s :
  (∀ r s, P s → P (body r s).2) →
  P s → P (rounds body rs l d s).2.
Proof.
  intros Hpres. revert l d s.
  induction rs as [|r rs IH]; intros l d s Hs; [done|].
  cbn [rounds]. unfold bind. specialize (Hpres r s Hs).
  destruct (body r s) as [[x|e] s1]; [by apply IH|done].
Qed.

End MoreLoopFacts.

(** ** More on [run] *)

Section MoreRunFacts.
Context {T : Types} (E : Collab T).
Implicit Types (self s : CDELFI T) (R r n_train epochs minibatch : Z).
Implicit Types (mon : option (list string)) (kwargs : gmap string pyval).

Lemma same_config_refl s : same_config s s.
Proof. by repeat split. Qed.

Lemma same_config_trans s1 s2 s3 :
  same_config s1 s2 → same_config s2 s3 → same_config s1 s3.
Proof.
  unfold same_config. intros (?&?&?&?&?&?) (?&?&?&?&?&?).
  split_and!; congruence.
Qed.

(** A pass, however it ends, leaves the constructor-set attributes. *)
Lemma round_keeps_config n_train R epochs minibatch mon kwargs r s :
  same_config s (round E n_train R epochs minibatch mon kwargs r s).2.
Proof.
  unfold round, gen, expand, loss, py_inv, gen_newseed, predict,
    same_config.
  run_m.
  repeat (first [ progress proj_simpl | case_innermost ]);
    split_and!; congruence.
Qed.

(** What a pass that returned tells about the state it started in and the
    state it left. *)
Lemma round_ok_facts n_train R epochs minibatch mon kwargs r s ld s' :
  round E n_train R epochs minibatch mon kwargs r s = (Ok ld, s') →
  svi (base s) = true ∧ n_train ≠ 0 ∧
  (∃ sm, base_gen E (generator (base s)) n_train = Ok (ld.2, sm)) ∧
  (∃ post g, project_to_gaussian E post = Ok g ∧
             proposal (generator (base s')) = Some g) ∧
  (is_Some (proposal (generator (base s))) →
   supported_prior (type_str E (prior (generator (base s)))) = true).
Proof.
  intros H.
  unfold round, gen, expand, loss, py_inv, gen_newseed, predict in H.
  run_m_in H.
  repeat (first [ discriminate H
                | progress proj_simpl_in H
                | case_innermost_in H ]).
  all: injection H as <- <-; proj_simpl.
  all: repeat match goal with
         | Hz : (_ =? 0) = false |- _ => apply Z.eqb_neq in Hz
         | p : (_ * _)%type |- _ => destruct p
         end; proj_simpl.
  all: split_and!; eauto.
  all: try (intros [? [=]]).
  all: unfold supported_prior;
    repeat match goal with Hc : PyStr.contains _ _ = _ |- _ =>
      rewrite Hc end; try done.
Qed.

(** X9: with [n_rounds <= 0] the loop body never runs: [run] returns two
    empty lists and leaves [self] as it was (nothing is drawn, trained or
    proposed). *)
Theorem run_no_rounds n_train R epochs minibatch mon kwargs self :
  R ≤ 0 →
  run E n_train R epochs minibatch mon kwargs self = (Ok ([], []), self).
Proof. intros HR. unfold run. by rewrite py_range_nil by lia. Qed.


(** X11: [run] does not go on after a failure: when the passes before
    round [r] returned and round [r] raises, [run] raises that exception
    and leaves the state round [r] left; no later round runs and the
    accumulated logs are lost. *)
Theorem run_aborts_at_first_failure n_train R epochs minibatch mon kwargs
    r self xs s e s2 :
  1 ≤ r ≤ R →
  steps (round E n_train R epochs minibatch mon kwargs) (py_range 1 r)
    self xs s →
  round E n_train R epochs minibatch mon kwargs r s = (Raise e, s2) →
  run E n_train R epochs minibatch mon kwargs self = (Raise e, s2).
Proof.
  intros Hr Hsteps Hraise. unfold run.
  rewrite (py_range_split 1 r (R + 1)) by lia.
  by apply rounds_raise with xs s.
Qed.

(** X12: however [run] ends, it leaves the generator's prior,
    [n_components], [obs], [reg_lambda], [svi] and [seed] as they
    were. *)
Theorem run_keeps_config n_train R epochs minibatch mon kwargs self :
  same_config self (run E n_train R epochs minibatch mon kwargs self).2.
Proof.
  unfold run. apply (rounds_keeps (same_config self)).
  - intros r s Hs. eapply same_config_trans; [done|].
    apply round_keeps_config.
  - apply same_config_refl.
Qed.

Lemma run_first_round n_train R epochs minibatch mon kwargs self res s' :
  1 ≤ R →
  run E n_train R epochs minibatch mon kwargs self = (Ok res, s') →
  ∃ ld s1 xs,
    round E n_train R epochs minibatch mon kwargs 1 self = (Ok ld, s1) ∧
    steps (round E n_train R epochs minibatch mon kwargs)
      (py_range 2 (R + 1)) s1 xs s'.
Proof.
  intros HR Hrun. unfold run in Hrun. destruct res as [logs dsets].
  apply rounds_ok_steps in Hrun as (xs & Hxs & _ & _).
  rewrite (py_range_split 1 1 (R + 1)) in Hxs by lia.
  rewrite py_range_nil in Hxs by lia. cbn [app] in Hxs.
  inversion Hxs as [|? ? ? x s1 xs' ? Hx Hrest]; subst.
  by exists x, s1, xs'.
Qed.

(** X13: [run] with at least one round returns only if [svi] is on and
    [n_train] is not zero. *)
Theorem run_needs_svi_and_samples n_train R epochs minibatch mon kwargs
    self res s' :
  1 ≤ R →
  run E n_train R epochs minibatch mon kwargs self = (Ok res, s') →
  svi (base self) = true ∧ n_train ≠ 0.
Proof.
  intros HR Hrun.
  destruct (run_first_round _ _ _ _ _ _ _ _ _ HR Hrun)
    as (ld & s1 & xs & Hld & _).
  apply round_ok_facts in Hld as (? & ? & _). done.
Qed.

(** X14: [run] returns from a round that starts with a proposal set only
    if the prior's type name contains [Uniform] or [Gaussian]; so a run of
    two or more rounds, or of one round on a generator that already has a
    proposal, needs such a prior. *)
Theorem run_needs_supported_prior n_train R epochs minibatch mon kwargs
    self res s' :
  2 ≤ R ∨ (1 ≤ R ∧ is_Some (proposal (generator (base self)))) →
  run E n_train R epochs minibatch mon kwargs self = (Ok res, s') →
  supported_prior (type_str E (prior (generator (base self)))) = true.
Proof.
  intros HR Hrun.
  assert (1 ≤ R) as HR1 by (destruct HR as [?|[? _]]; lia).
  destruct (run_first_round _ _ _ _ _ _ _ res s' HR1 Hrun)
    as (ld & s1 & xs & Hld & Hxs).
  pose proof (round_keeps_config n_train R epochs minibatch mon kwargs
                1 self) as Hcfg.
  rewrite Hld in Hcfg. destruct Hcfg as (Hprior & _).
  apply round_ok_facts in Hld as (_ & _ & _ & (post & g & _ & Hprop) & Hsup).
  destruct HR as [HR|[_ Hset]]; [|by apply Hsup].
  rewrite (py_range_split 2 2 (R + 1)) in Hxs by lia.
  rewrite py_range_nil in Hxs by lia. cbn [app] in Hxs.
  inversion Hxs as [|? ? ? x s2 xs' ? Hx Hrest]; subst.
  apply round_ok_facts in Hx as (_ & _ & _ & _ & Hsup2).
  cbn [snd] in Hprior. rewrite <-Hprior. apply Hsup2. by rewrite Hprop.
Qed.

(** X15: after a [run] of at least one round that returned, the
    generator's proposal is set, to a distribution that
    [project_to_gaussian] returned. *)
Theorem run_sets_proposal n_train R epochs minibatch mon kwargs self
    res s' :
  1 ≤ R →
  run E n_train R epochs minibatch mon kwargs self = (Ok res, s') →
  ∃ post g, project_to_gaussian E post = Ok g ∧
            proposal (generator (base s')) = Some g.
Proof.
  intros HR Hrun. unfold run in Hrun. destruct res as [logs dsets].
  apply rounds_ok_steps in Hrun as (xs & Hxs & _ & _).
  rewrite py_range_snoc in Hxs by done.
  apply steps_snoc_inv in Hxs as (xs1 & s1 & x & _ & Hx & _).
  by apply round_ok_facts in Hx as (_ & _ & _ & ? & _).
Qed.

Lemma round_without_constructor f n_train R epochs minibatch mon
    kwargs r s :
  r ≠ R ∨ n_components s ≤ 1 →
  round (with_constructor f E) n_train R epochs minibatch mon kwargs r s
  = round E n_train R epochs minibatch mon kwargs r s.
Proof.
  intros Hcond. unfold round, gen. run_m. cbn [with_constructor base_gen].
  destruct (base_gen E (generator (base s)) n_train) as [[d sm]|e]; [|done].
  proj_simpl.
  replace ((r =? R) && (1 <? n_components s)) with false; [reflexivity|].
  symmetry. apply andb_false_iff.
  destruct Hcond; [left; by apply Z.eqb_neq|right; by apply Z.ltb_ge].
Qed.

(** X16: a pass constructs a network only if it is the last one and more
    than one component is requested: otherwise it does not depend on the
    constructor. *)
Theorem round_constructs_only_at_end f n_train R epochs minibatch mon
    kwargs r s :
  r ≠ R ∨ n_components s ≤ 1 →
  round (with_constructor f E) n_train R epochs minibatch mon kwargs r s
  = round E n_train R epochs minibatch mon kwargs r s.
Proof. apply round_without_constructor. Qed.

(** X17: with [n_components <= 1] a whole [run] never constructs a
    network: it is the same under any constructor. *)
Theorem run_single_component_never_constructs f n_train R epochs
    minibatch mon kwargs self :
  n_components self ≤ 1 →
  run (with_constructor f E) n_train R epochs minibatch mon kwargs self
  = run E n_train R epochs minibatch mon kwargs self.
Proof.
  intros Hn. unfold run.
  apply (rounds_ext (λ s, n_components s ≤ 1)); [| |done].
  - intros r s Hs. apply round_without_constructor. by right.
  - intros r s Hs.
    destruct (round_keeps_config n_train R epochs minibatch mon kwargs r s)
      as (_ & -> & _). done.
Qed.

(** X20: when the first draw from the generator raises, [run] raises the
    same exception and [self] is exactly as it was: no network was built
    or trained and no proposal was set. *)
Theorem run_first_draw_fails n_train R epochs minibatch mon kwargs self e :
  1 ≤ R →
  base_gen E (generator (base self)) n_train = Raise e →
  run E n_train R epochs minibatch mon kwargs self = (Raise e, self).
Proof.
  intros HR He. unfold run.
  rewrite (py_range_split 1 1 (R + 1)), py_range_nil by lia.
  cbn [app rounds]. unfold round, gen. run_m. by rewrite He.
Qed.

End MoreRunFacts.

Lemma run_no_rounds_witness :
  run Toy.collab 100 0 1000 50 None ∅
    (Toy.self_of Toy.gaussian_type None 2 true)
  = (Ok ([], []), Toy.self_of Toy.gaussian_type None 2 true).
Proof. apply run_no_rounds. lia. Defined.


Lemma run_aborts_at_first_failure_witness :
  let self := Toy.self_of Toy.studentst_type None 1 true in
  run Toy.collab 100 2 1000 50 None ∅ self
  = (Raise (TypeError "exceptions must derive from BaseException"),
     (run Toy.collab 100 2 1000 50 None ∅ self).2).
Proof.
  intros self.
  apply (run_aborts_at_first_failure Toy.collab 100 2 1000 50 None ∅ 2
           self [(1000, 0)]
           (round Toy.collab 100 2 1000 50 None ∅ 1 self).2).
  - lia.
  - refine (steps_cons _ 1 [] _ (1000, 0)
              (round Toy.collab 100 2 1000 50 None ∅ 1 self).2 [] _ _
              (steps_nil _ _)).
    by vm_compute.
  - by vm_compute.
Defined.

Lemma run_needs_svi_and_samples_witness :
  svi (base (Toy.self_of Toy.gaussian_type None 2 true)) = true ∧ 100 ≠ 0.
Proof.
  apply (run_needs_svi_and_samples Toy.collab 100 2 1000 50 None ∅
           (Toy.self_of Toy.gaussian_type None 2 true)
           ([1000; 1001], [0; 1])
           (run Toy.collab 100 2 1000 50 None ∅
              (Toy.self_of Toy.gaussian_type None 2 true)).2).
  - lia.
  - by vm_compute.
Defined.

Lemma run_needs_supported_prior_witness :
  supported_prior
    (type_str Toy.collab
       (prior (generator (base (Toy.self_of Toy.gaussian_type None 2 true)))))
  = true.
Proof.
  apply (run_needs_supported_prior Toy.collab 100 2 1000 50 None ∅
           (Toy.self_of Toy.gaussian_type None 2 true)
           ([1000; 1001], [0; 1])
           (run Toy.collab 100 2 1000 50 None ∅
              (Toy.self_of Toy.gaussian_type None 2 true)).2).
  - left. lia.
  - by vm_compute.
Defined.

Lemma run_sets_proposal_witness :
  ∃ post g,
    project_to_gaussian Toy.collab post = Ok g ∧
    proposal (generator (base
      (run Toy.collab 100 2 1000 50 None ∅
         (Toy.self_of Toy.gaussian_type None 2 true)).2)) = Some g.
Proof.
  apply (run_sets_proposal Toy.collab 100 2 1000 50 None ∅
           (Toy.self_of Toy.gaussian_type None 2 true)
           ([1000; 1001], [0; 1])).
  - lia.
  - by vm_compute.
Defined.

Lemma round_constructs_only_at_end_witness :
  round (with_constructor (λ _, Raise (External "no network")) Toy.collab)
    100 2 1000 50 None ∅ 1 (Toy.self_of Toy.gaussian_type None 2 true)
  = round Toy.collab 100 2 1000 50 None ∅ 1
      (Toy.self_of Toy.gaussian_type None 2 true).
Proof. apply round_constructs_only_at_end. left. lia. Defined.

Lemma run_single_component_never_constructs_witness :
  run (with_constructor (λ _, Raise (External "no network")) Toy.collab)
    100 2 1000 50 None ∅ (Toy.self_of Toy.gaussian_type None 1 true)
  = run Toy.collab 100 2 1000 50 None ∅
      (Toy.self_of Toy.gaussian_type None 1 true).
Proof. apply run_single_component_never_constructs. simpl. lia. Defined.

Lemma run_first_draw_fails_witness :
  run (with_base_gen (λ _ _, Raise (External "simulator")) Toy.collab)
    100 2 1000 50 None ∅ (Toy.self_of Toy.gaussian_type None 2 true)
  = (Raise (External "simulator"),
     Toy.self_of Toy.gaussian_type None 2 true).
Proof. apply run_first_draw_fails; [lia|reflexivity]. Defined.

(** ** [SummaryStatsBase] *)

Module SummaryStatsFacts.
Import SummaryStats.

Section BaseFacts.
Context {R : Type} (np : NumpyRandom R).
Implicit Types (self : SummaryStatsBase R) (k : nat).

Lemma gen_newseeds_unseeded k self :
  seed self = None →
  gen_newseeds np k self = (Ok (replicate k None), self).
Proof.
  intros Hs. induction k as [|k IH]; [done|].
  cbn [gen_newseeds replicate]. unfold gen_newseed at 1. run_m.
  rewrite Hs. run_m. fold (gen_newseeds np k). by rewrite IH.
Qed.

Lemma gen_newseeds_seeded k self :
  randint_in_range np → is_Some (seed self) →
  ∃ xs self',
    gen_newseeds np k self = (Ok xs, self') ∧
    length xs = k ∧
    Forall (λ x, ∃ v, x = Some v ∧ 0 ≤ v < 2 ^ 31) xs ∧
    seed self' = seed self ∧ n_summary self' = n_summary self.
Proof.
  intros Hrange. revert self. induction k as [|k IH]; intros self Hs.
  - exists [], self. by split_and!.
  - destruct Hs as [n Hn].
    destruct (IH {| rng := (np_randint np (rng self) 0 (2 ^ 31)).2;
                    seed := seed self; n_summary := n_summary self |})
      as (xs & self' & Hxs & Hlen & Hall & Hseed & Hsum).
    { cbn. by rewrite Hn. }
    exists (Some (np_randint np (rng self) 0 (2 ^ 31)).1 :: xs), self'.
    split_and!.
    + cbn [gen_newseeds]. unfold gen_newseed at 1. run_m. rewrite Hn.
      run_m. fold (gen_newseeds np k). by rewrite Hxs.
    + cbn. by rewrite Hlen.
    + constructor; [|done]. eexists. split; [done|].
      apply Hrange. lia.
    + done.
    + done.
Qed.

(** X18: an object built without a seed never hands out a seed: any number
    of calls to [gen_newseed] return [None], and the object, its random
    state included, stays as built. *)
Theorem unseeded_never_seeds k self :
  init np None = Ok self →
  gen_newseeds np k self = (Ok (replicate k None), self).
Proof.
  intros Hinit. apply gen_newseeds_unseeded.
  unfold init in Hinit. destruct (RandomState np None); [|done].
  by injection Hinit as <-.
Qed.

(** X19: an object built with a seed, 0 included, hands out an integer at
    every call to [gen_newseed], never [None]; each is a draw of
    [randint(0, 2**31)], so with numpy's contract for [randint] it lies in
    [[0, 2**31)]; the calls change the random state only. *)
Theorem seeded_always_seeds k n self :
  randint_in_range np →
  init np (Some n) = Ok self →
  ∃ xs self',
    gen_newseeds np k self = (Ok xs, self') ∧
    length xs = k ∧
    Forall (λ x, ∃ v, x = Some v ∧ 0 ≤ v < 2 ^ 31) xs ∧
    seed self' = Some n ∧ n_summary self' = None.
Proof.
  intros Hrange Hinit.
  unfold init in Hinit. destruct (RandomState np (Some n)); [|done].
  injection Hinit as <-.
  destruct (gen_newseeds_seeded k
              {| rng := a; seed := Some n; n_summary := None |} Hrange)
    as (xs & self' & ? & ? & ? & ? & ?); [by eexists|].
  by exists xs, self'.
Qed.

End BaseFacts.

Lemma lcg_in_range : randint_in_range lcg.
Proof.
  intros r lo hi Hlt. cbn.
  pose proof (Z.mod_pos_bound (1103515245 * r + 12345) (hi - lo)). lia.
Qed.

End SummaryStatsFacts.

Lemma unseeded_never_seeds_witness :
  SummaryStats.gen_newseeds SummaryStats.lcg 3
    {| SummaryStats.rng := 0; SummaryStats.seed := None;
       SummaryStats.n_summary := None |}
  = (Ok [None; None; None],
     {| SummaryStats.rng := 0; SummaryStats.seed := None;
        SummaryStats.n_summary := None |}).
Proof.
  apply (SummaryStatsFacts.unseeded_never_seeds SummaryStats.lcg 3).
  reflexivity.
Defined.

Lemma seeded_always_seeds_witness :
  ∃ xs self',
    SummaryStats.gen_newseeds SummaryStats.lcg 3
      {| SummaryStats.rng := 0; SummaryStats.seed := Some 0;
         SummaryStats.n_summary := None |}
    = (Ok xs, self') ∧
    length xs = 3%nat ∧
    Forall (λ x, ∃ v, x = Some v ∧ 0 ≤ v < 2 ^ 31) xs ∧
    SummaryStats.seed self' = Some 0 ∧ SummaryStats.n_summary self' = None.
Proof.
  apply (SummaryStatsFacts.seeded_always_seeds SummaryStats.lcg 3 0).
  - exact SummaryStatsFacts.lcg_in_range.
  - reflexivity.
Defined.

(** * When [run] returns *)

Section RunReturns.
Context {T : Types} (E : Collab T).
Implicit Types (self s : CDELFI T) (R r n_train epochs minibatch : Z).
Implicit Types (mon : option (list string)) (kwargs : gmap string pyval).

Lemma round_cases n_train R epochs minibatch mon kwargs r s :
  (∃ ld s',
     round E n_train R epochs minibatch mon kwargs r s = (Ok ld, s') ∧
     round (blaming E) n_train R epochs minibatch mon kwargs r s
     = (Ok ld, s'))
  ∨ (∃ s', round (blaming E) n_train R epochs minibatch mon kwargs r s
           = (Raise blame, s'))
  ∨ svi (base s) = false
  ∨ n_train = 0
  ∨ (is_Some (proposal (generator (base s))) ∧
     supported_prior (type_str E (prior (generator (base s)))) = false)
  ∨ (r = R ∧ 1 < n_components s ∧
     ∃ d sm nw p,
       base_gen E (generator (base s)) n_train = Ok (d, sm) ∧
       mk_NeuralNet E (expanded_spec (drawn sm s)) = Ok nw ∧
       is_Some (params_dict nw !! p) ∧ is_mp p = true ∧
       params_dict (network (base s)) !! zero_key p = None).
Proof.
  cut (∀ P3 P4 P5 P6 : Prop,
         (svi (base s) = false → P3) →
         (n_train = 0 → P4) →
         (is_Some (proposal (generator (base s))) ∧
          supported_prior (type_str E (prior (generator (base s)))) = false
          → P5) →
         (r = R ∧ 1 < n_components s ∧
          (∃ d sm nw p,
             base_gen E (generator (base s)) n_train = Ok (d, sm) ∧
             mk_NeuralNet E (expanded_spec (drawn sm s)) = Ok nw ∧
             is_Some (params_dict nw !! p) ∧ is_mp p = true ∧
             params_dict (network (base s)) !! zero_key p = None) → P6) →
         (∃ ld s',
            round E n_train R epochs minibatch mon kwargs r s = (Ok ld, s') ∧
            round (blaming E) n_train R epochs minibatch mon kwargs r s
            = (Ok ld, s'))
         ∨ (∃ s', round (blaming E) n_train R epochs minibatch mon kwargs r s
                  = (Raise blame, s'))
         ∨ P3 ∨ P4 ∨ P5 ∨ P6).
  { intros Hcut. apply Hcut; auto. }
  intros P3 P4 P5 P6 H3 H4 H5 H6.
  unfold round, gen, expand, loss, py_inv, gen_newseed, predict.
  run_m.
  cbn [blaming base_gen mk_NeuralNet monitor_dict_from_names mk_Trainer
       train base_predict dist_mul dist_truediv project_to_gaussian
       type_str randint].
  unfold blamed.
  repeat (first [ progress proj_simpl | case_innermost ]).
  all: try (left; eexists _, _; split; reflexivity).
  all: try (right; left; eexists; reflexivity).
  all: try (do 2 right; left; apply H3; done).
  all: try (do 3 right; left; apply H4; by apply Z.eqb_eq).
  all: try (do 4 right; left; apply H5; split;
            [by eexists|unfold supported_prior;
             repeat match goal with Hc : PyStr.contains _ _ = _ |- _ =>
               rewrite Hc end; done]).
  do 5 right. apply H6.
  apply andb_true_iff in Heqb as [Hr%Z.eqb_eq Hn%Z.ltb_lt].
  split_and!; [done..|]. destruct a as [d sm].
  destruct (set_weights_raise _ _ _ _ Heqo1) as (p & Hp & _ & Hmiss).
  apply elem_of_mp_names in Hp as [Hmp Hsome].
  exists d, sm, a0, p. split_and!; done.
Qed.

(** What the rounds before the last one need and keep. *)
Lemma rounds_before_last n_train R epochs minibatch mon kwargs rs l d s :
  (∀ r, r ∈ rs → r ≠ R) →
  svi (base s) = true →
  n_train ≠ 0 →
  (is_Some (proposal (generator (base s))) →
   supported_prior (type_str E (prior (generator (base s)))) = true) →
  (rs ≠ [] →
   supported_prior (type_str E (prior (generator (base s)))) = true) →
  (∀ s', rounds (round (blaming E) n_train R epochs minibatch mon kwargs)
           rs l d s ≠ (Raise blame, s')) →
  ∃ xs s1,
    steps (round E n_train R epochs minibatch mon kwargs) rs s xs s1 ∧
    steps (round (blaming E) n_train R epochs minibatch mon kwargs)
      rs s xs s1 ∧
    same_config s s1 ∧
    (is_Some (proposal (generator (base s1))) →
     supported_prior (type_str E (prior (generator (base s)))) = true).
Proof.
  revert l d s. induction rs as [|r rs IH];
    intros l d s Hne Hsvi HN Hprop Hsup Hblame.
  { exists [], s. split_and!; [constructor|constructor| |done].
    apply same_config_refl. }
  assert (supported_prior (type_str E (prior (generator (base s)))) = true)
    as Hs by (by apply Hsup).
  destruct (round_cases n_train R epochs minibatch mon kwargs r s)
    as [(ld & s1 & HE & HB)|[[s1 HB]|[Hc|[Hc|[[_ Hc]|[Hc _]]]]]];
    try congruence.
  - pose proof (round_keeps_config E n_train R epochs minibatch mon kwargs
                  r s) as Hcfg.
    rewrite HE in Hcfg. cbn [snd] in Hcfg.
    pose proof Hcfg as (Hpr & _ & _ & _ & Hsv & _).
    destruct (IH (l ++ [ld.1]) (d ++ [ld.2]) s1)
      as (xs & s2 & HxE & HxB & Hcfg2 & _).
    + intros r' Hr'. apply Hne. by right.
    + congruence.
    + done.
    + intros _. by rewrite Hpr.
    + intros _. by rewrite Hpr.
    + intros s' Hs'. apply (Hblame s').
      cbn [rounds]. unfold bind. by rewrite HB.
    + exists (ld :: xs), s2. split_and!.
      * by econstructor.
      * by econstructor.
      * by eapply same_config_trans.
      * done.
  - destruct (Hblame s1). cbn [rounds]. unfold bind. by rewrite HB.
  - destruct (Hne r); [left|done].
Qed.

(** When every operation of the collaborators always returns, no call a
    round makes is to blame. *)
Lemma round_total_no_blame n_train R epochs minibatch mon kwargs r s s' :
  total_collab E →
  round (blaming E) n_train R epochs minibatch mon kwargs r s
  ≠ (Raise blame, s').
Proof.
  intros Htot H.
  unfold round, gen, expand, loss, py_inv, gen_newseed, predict in H.
  run_m_in H.
  cbn [blaming base_gen mk_NeuralNet monitor_dict_from_names mk_Trainer
       train base_predict dist_mul dist_truediv project_to_gaussian
       type_str randint] in H.
  unfold blamed in H.
  repeat (first [ discriminate H
                | progress proj_simpl_in H
                | case_innermost_in H ]).
  all: try match goal with
    | Heq : base_gen E ?g ?n = Raise _ |- _ =>
        destruct (gen_total E Htot g n) as [? Hx]
    | Heq : mk_NeuralNet E ?a = Raise _ |- _ =>
        destruct (NeuralNet_total E Htot a) as [? Hx]
    | Heq : monitor_dict_from_names E ?a ?b = Raise _ |- _ =>
        destruct (monitor_total E Htot a b) as [? Hx]
    | Heq : mk_Trainer E ?a ?b ?c ?d ?e ?f = Raise _ |- _ =>
        destruct (Trainer_total E Htot a b c d e f) as [? Hx]
    | Heq : train E ?a ?b ?c ?d = Raise _ |- _ =>
        destruct (train_total E Htot a b c d) as [? Hx]
    | Heq : base_predict E ?a ?b = Raise _ |- _ =>
        destruct (predict_total E Htot a b) as [? Hx]
    | Heq : dist_mul E ?a ?b = Raise _ |- _ =>
        destruct (mul_total E Htot a b) as [? Hx]
    | Heq : dist_truediv E ?a ?b = Raise _ |- _ =>
        destruct (truediv_total E Htot a b) as [? Hx]
    | Heq : project_to_gaussian E ?a = Raise _ |- _ =>
        destruct (project_total E Htot a) as [? Hx]
    end; try congruence.
  all: injection H as He _.
  all: match goal with Heq : duplicate_components _ _ = Raise _ |- _ =>
         apply set_weights_raise in Heq as (? & _ & -> & _) end.
  all: discriminate He.
Qed.

(** So collaborators that always return are a case of [calls_return]. *)
Lemma total_calls_return n_train R epochs minibatch mon kwargs self :
  total_collab E →
  calls_return E n_train R epochs minibatch mon kwargs self.
Proof.
  intros Htot s' Hrun. unfold run in Hrun.
  revert Hrun. generalize (@nil (log T)) (@nil (data T)) self.
  induction (py_range 1 (R + 1)) as [|r rs IH]; intros l d s Hrun.
  - discriminate Hrun.
  - cbn [rounds] in Hrun. unfold bind in Hrun.
    destruct (round (blaming E) n_train R epochs minibatch mon kwargs r s)
      as [[x|e] s1] eqn:Hr.
    + by eapply IH.
    + injection Hrun as -> ->.
      by eapply round_total_no_blame.
Qed.

(** C8, with what a returning run needs spelt out: for [R >= 1], when
    every collaborator call the run makes returns, [svi] is on, the sample
    count is not zero, the prior's type name contains [Uniform] or
    [Gaussian] if there are two or more rounds or the generator already
    has a proposal, and every lookup the surgery of the last round makes
    (if more than one component is requested) hits, [run] returns;
    [logs] and [trn_datasets] have [R] entries each, and entry [i] is what
    pass [i + 1] returned, started in the state pass [i] left. *)
Theorem run_returns_all_rounds n_train R epochs minibatch mon kwargs self :
  1 ≤ R →
  calls_return E n_train R epochs minibatch mon kwargs self →
  svi (base self) = true →
  n_train ≠ 0 →
  (2 ≤ R ∨ is_Some (proposal (generator (base self))) →
   supported_prior (type_str E (prior (generator (base self)))) = true) →
  (1 < n_components self →
   lookups_return E n_train R epochs minibatch mon kwargs self) →
  ∃ logs dsets (sts : list (CDELFI T)) s',
    run E n_train R epochs minibatch mon kwargs self
    = (Ok (logs, dsets), s') ∧
    length logs = Z.to_nat R ∧ length dsets = Z.to_nat R ∧
    sts !! 0%nat = Some self ∧ sts !! Z.to_nat R = Some s' ∧
    ∀ i : nat, (i < Z.to_nat R)%nat →
      ∃ l d s1 s2,
        logs !! i = Some l ∧ dsets !! i = Some d ∧
        sts !! i = Some s1 ∧ sts !! Datatypes.S i = Some s2 ∧
        round E n_train R epochs minibatch mon kwargs (Z.of_nat i + 1) s1
        = (Ok (l, d), s2).
Proof.
  intros HR Hcalls Hsvi HN Hprior Hlook.
  set (body := round E n_train R epochs minibatch mon kwargs).
  unfold calls_return, run in Hcalls.
  rewrite py_range_snoc in Hcalls by done.
  (* the rounds before the last *)
  destruct (rounds_before_last n_train R epochs minibatch mon kwargs
              (py_range 1 R) [] [] self)
    as (xs & s1 & HxE & HxB & Hcfg & Hsup); try done.
  { intros r Hr%elem_of_py_range. lia. }
  { intros Hset. apply Hprior. by right. }
  { intros Hne. apply Hprior. left.
    destruct (decide (2 ≤ R)); [done|].
    destruct Hne. apply py_range_nil. lia. }
  { intros s' Hs'. apply (Hcalls s').
    rewrite rounds_app. by rewrite Hs'. }
  destruct Hcfg as (Hpr & Hnc & _ & _ & Hsv & _).
  (* the last round *)
  destruct (round_cases n_train R epochs minibatch mon kwargs R s1)
    as [(ld & s' & HE & _)|[[s' HB]|[Hc|[Hc|[[Hset Hc]|Hc]]]]].
  - assert (steps body (py_range 1 (R + 1)) self (xs ++ [ld]) s') as Hall.
    { rewrite py_range_snoc by done. eapply steps_app; [done|].
      econstructor; [done|constructor]. }
    assert (length (xs ++ [ld]) = Z.to_nat R) as Hlen.
    { rewrite (steps_length _ _ _ _ _ Hall), py_range_length. lia. }
    destruct (steps_states _ _ _ _ _ Hall) as (sts & H0 & Hlast & Hi).
    exists (xs ++ [ld]).*1, (xs ++ [ld]).*2, sts, s'.
    split_and!.
    + exact (rounds_steps _ _ _ _ _ [] [] Hall).
    + by rewrite length_fmap.
    + by rewrite length_fmap.
    + done.
    + rewrite py_range_length in Hlast.
      by replace (Z.to_nat (R + 1 - 1)) with (Z.to_nat R) in Hlast by lia.
    + intros i Hlt.
      destruct (Hi i (1 + Z.of_nat i)) as (x & sa & sb & Hx & Ha & Hb & Hr).
      { apply py_range_lookup. lia. }
      exists x.1, x.2, sa, sb. rewrite !list_lookup_fmap, Hx.
      split_and!; try done.
      replace (Z.of_nat i + 1) with (1 + Z.of_nat i) by lia.
      by destruct x.
  - destruct (Hcalls s'). by apply rounds_raise with xs s1.
  - congruence.
  - done.
  - rewrite Hpr, (Hsup Hset) in Hc. done.
  - destruct Hc as (_ & Hn & d & sm & nw & p & Hd & Hnw & Hp & Hmp & Hmiss).
    rewrite Hnc in Hn.
    destruct (Hlook Hn xs s1 d sm nw p) as [v Hv]; try done.
    congruence.
Qed.

End RunReturns.

Module ToyRunFacts.
Import Toy.

Lemma calls_return_two :
  calls_return collab 100 2 1000 50 None ∅ (self_of gaussian_type None 2 true).
Proof.
  intros s' Hrun.
  assert ((run (blaming collab) 100 2 1000 50 None ∅
             (self_of gaussian_type None 2 true)).1
          = Ok ([1000; 1001], [0; 1])) as Hok by (by vm_compute).
  rewrite Hrun in Hok. discriminate Hok.
Qed.

Lemma lookups_return_two :
  lookups_return collab 100 2 1000 50 None ∅
    (self_of gaussian_type None 2 true).
Proof.
  intros xs s d sm nw p Hsteps Hd Hnw Hp Hmp.
  change (py_range 1 2) with [1] in Hsteps.
  inversion Hsteps as [|? ? ? x s1 xs' ? Hx Hrest]; subst.
  inversion Hrest; subst. clear Hsteps Hrest.
  apply (f_equal snd) in Hx. cbn [snd] in Hx. subst s.
  injection Hnw as <-.
  apply ToyFacts.fresh_net_names in Hp.
  unfold count_of, expanded_spec in Hp. rewrite lookup_insert_eq in Hp.
  cbn [n_components drawn set_base] in Hp.
  match type of Hp with context [Z.to_nat ?n] =>
    let v := eval vm_compute in (Z.to_nat n) in
    change (Z.to_nat n) with v in Hp end.
  apply elem_of_param_names in Hp as [Hsh|(stem & c & Hst & Hc & ->)].
  - apply (wf_layout_shared toy_layout) in Hsh; [congruence|done].
  - rewrite zero_key_indexed_small by lia.
    cbn in Hst. rewrite !elem_of_cons in Hst.
    destruct Hst as [->|[->|[]%elem_of_nil]]; exists 2; by vm_compute.
Qed.

End ToyRunFacts.

Lemma run_returns_all_rounds_witness :
  ∃ logs dsets (sts : list (CDELFI Toy.types)) s',
    run Toy.collab 100 2 1000 50 None ∅
      (Toy.self_of Toy.gaussian_type None 2 true)
    = (Ok (logs, dsets), s') ∧
    length logs = Z.to_nat 2 ∧ length dsets = Z.to_nat 2 ∧
    sts !! 0%nat = Some (Toy.self_of Toy.gaussian_type None 2 true) ∧
    sts !! Z.to_nat 2 = Some s' ∧
    ∀ i : nat, (i < Z.to_nat 2)%nat →
      ∃ l d s1 s2,
        logs !! i = Some l ∧ dsets !! i = Some d ∧
        sts !! i = Some s1 ∧ sts !! Datatypes.S i = Some s2 ∧
        round Toy.collab 100 2 1000 50 None ∅ (Z.of_nat i + 1) s1
        = (Ok (l, d), s2).
Proof.
  apply (run_returns_all_rounds Toy.collab 100 2 1000 50 None ∅
           (Toy.self_of Toy.gaussian_type None 2 true)).
  - lia.
  - exact ToyRunFacts.calls_return_two.
  - reflexivity.
  - lia.
  - intros _. reflexivity.
  - intros _. exact ToyRunFacts.lookups_return_two.
Defined.

(** A single round with no proposal yet never looks at the prior: it
    returns under a Student-t prior too. *)
Example run_one_round_studentst :
  (run Toy.collab 100 1 1000 50 None ∅
     (Toy.self_of Toy.studentst_type None 1 true)).1
  = Ok ([1000], [0]).
Proof. by vm_compute. Qed.
